(** * TalentSyncAI frontend: the authenticated request client

    A shallow embedding of [frontend/src/services/api.js] (token store,
    request and response interceptors of the [api] axios instance, the
    [authAPI] table) and of [frontend/src/context/AuthContext.jsx]
    (bootstrap effect, [login], [signup], [logout]).

    JavaScript runs these on a single-threaded event loop.  Each piece of
    code that runs between two [await]s is one atomic step here; the network
    is the environment, which delivers replies as events in any order. *)

From Stdlib Require Import ZArith String List Lia.
From stdpp Require Import base option list gmap strings.
Import ListNotations.

Local Open Scope string_scope.

(** ** JavaScript values used by the client *)

(** Truthiness of a string: only the empty string is falsy. *)
Definition truthy (s : string) : bool :=
  match s with
  | EmptyString => false
  | String _ _ => true
  end.

(** Truthiness of [string | null] (what [localStorage.getItem] and
    [URLSearchParams.get] return). *)
Definition truthy_opt (o : option string) : bool :=
  match o with
  | Some s => truthy s
  | None => false
  end.

(** [x || ''] for [x : string | null]. *)
Definition or_empty (o : option string) : string :=
  match o with
  | Some s => if truthy s then s else ""
  | None => ""
  end.

(** The React state of [AuthProvider]: [user] and [loading]. *)
Record Auth := mkAuth {
  user : option string;
  loading : bool
}.

Definition setUser (u : option string) (a : Auth) : Auth :=
  mkAuth u (loading a).

Definition setLoading (b : bool) (a : Auth) : Auth :=
  mkAuth (user a) b.

(** ** services/api.js *)

Module Api.

(** [localStorage]: a durable map from keys to strings. *)
Abbreviation Storage := (gmap string string).

Definition getItem (k : string) (ls : Storage) : option string := ls !! k.
Definition setItem (k v : string) (ls : Storage) : Storage := <[k:=v]> ls.
Definition removeItem (k : string) (ls : Storage) : Storage := delete k ls.

(** The module-level variables [accessToken], [refreshToken], [onLogout],
    together with the [localStorage] they are written through to.  A logout
    handler is a callback acting on the React state of its owner. *)
Record Store := mkStore {
  accessToken : string;
  refreshToken : string;
  onLogout : option (Auth -> Auth);
  localStorage : Storage
}.

(** Module initialisation:
    [let accessToken = localStorage.getItem('ja_access') || ''] etc. *)
Definition load (ls : Storage) : Store :=
  mkStore (or_empty (getItem "ja_access" ls))
          (or_empty (getItem "ja_refresh" ls))
          None
          ls.

Definition setLogoutHandler (fn : Auth -> Auth) (st : Store) : Store :=
  mkStore (accessToken st) (refreshToken st) (Some fn) (localStorage st).

Definition setTokens (access refresh : string) (st : Store) : Store :=
  mkStore access refresh (onLogout st)
          (setItem "ja_refresh" refresh
             (setItem "ja_access" access (localStorage st))).

Definition getTokens (st : Store) : string * string :=
  (accessToken st, refreshToken st).

Definition clearTokens (st : Store) : Store :=
  mkStore "" "" (onLogout st)
          (removeItem "ja_refresh"
             (removeItem "ja_access" (localStorage st))).

Definition hasTokens (st : Store) : bool := truthy (accessToken st).

(** Targets of the calls made by the client.  [Path p] stands for any other
    route of the backend reached through the [api] instance. *)
Inductive Endpoint :=
| AuthSignup
| AuthLogin
| AuthRefresh
| AuthMe
| AuthLogout
| Path (p : string).

(** An axios request config, as far as the client reads or writes it. *)
Record Config := mkConfig {
  endpoint : Endpoint;
  Authorization : option string;
  _retry : bool
}.

(** The config of a call as the caller builds it: no header of its own. *)
Definition fresh (ep : Endpoint) : Config := mkConfig ep None false.

Definition bearer (tok : string) : string := "Bearer " ++ tok.

(** [api.interceptors.request.use]. *)
Definition request_interceptor (st : Store) (cfg : Config) : Config :=
  if truthy (accessToken st)
  then mkConfig (endpoint cfg) (Some (bearer (accessToken st))) (_retry cfg)
  else cfg.

(** The two HTTP clients of the module: the global [axios] object, which has
    no interceptors, and the [api] instance, which has both. *)
Inductive Client := Bare | Instance.

(** What a client puts on the wire for a config. *)
Definition outgoing (c : Client) (st : Store) (cfg : Config) : Config :=
  match c with
  | Bare => cfg
  | Instance => request_interceptor st cfg
  end.

End Api.

Import Api.

(** ** The event loop: requests in flight and what the network has seen *)

(** An axios error as the response interceptor reads it: [error.config] is a
    reference to the request's config object (requests are numbered in the
    order they are created), [error.response?.status] is absent when no
    response arrived. *)
Record AxiosError := mkError {
  config : nat;
  status : option Z
}.

(** Who awaits the promise returned by a call on the [api] instance:
    ordinary page code, the bootstrap check [authAPI.me()] of the mount
    effect, or [logout()] awaiting [authAPI.logout()]. *)
Inductive Caller := Plain | MeCheck | LogoutCall.

(** Where a request stands: on the wire, suspended in the response
    interceptor at [await axios.post(.../auth/refresh)] holding its [error],
    or settled. *)
Inductive Phase :=
| OnWire
| AwaitRefresh (error : AxiosError)
| Settled.

Record Request := mkRequest {
  cfg : Config;
  caller : Caller;
  phase : Phase
}.

Inductive Outcome :=
| Fulfilled (data : string)
| Failed (error : AxiosError).

(** What leaves the client or is done to the session, in the order it
    happens.  [AxiosPost c body owner] is a call on the global [axios]
    object; [owner] is the request whose interceptor issued it, if any. *)
Inductive Effect :=
| ApiSend (rid : nat) (c : Config)
| AxiosPost (c : Config) (body : string) (owner : option nat)
| TokensSet (access refresh : string)
| TokensCleared
| LogoutHookRun
| Settle (rid : nat) (out : Outcome).

Record World := mkWorld {
  store : Store;
  auth : Auth;
  reqs : gmap nat Request;
  next : nat;
  trace : list Effect
}.

Definition emit (e : Effect) (w : World) : World :=
  mkWorld (store w) (auth w) (reqs w) (next w) (trace w ++ [e]).

Definition with_store (f : Store -> Store) (w : World) : World :=
  mkWorld (f (store w)) (auth w) (reqs w) (next w) (trace w).

Definition with_auth (f : Auth -> Auth) (w : World) : World :=
  mkWorld (store w) (f (auth w)) (reqs w) (next w) (trace w).

Definition with_req (rid : nat) (rq : Request) (w : World) : World :=
  mkWorld (store w) (auth w) (<[rid:=rq]> (reqs w)) (next w) (trace w).

Definition do_setTokens (access refresh : string) (w : World) : World :=
  emit (TokensSet access refresh) (with_store (setTokens access refresh) w).

Definition do_clearTokens (w : World) : World :=
  emit TokensCleared (with_store clearTokens w).

(** [if (onLogout) onLogout();] *)
Definition do_onLogout (w : World) : World :=
  match onLogout (store w) with
  | Some fn => emit LogoutHookRun (with_auth fn w)
  | None => w
  end.

(** A call on the [api] instance by caller [k]: a new config object, the
    request interceptor, then the wire. *)
Definition api_call (k : Caller) (ep : Endpoint) (w : World) : World :=
  let rid := next w in
  let c := outgoing Instance (store w) (fresh ep) in
  emit (ApiSend rid c)
    (mkWorld (store w) (auth w) (<[rid:=mkRequest c k OnWire]> (reqs w))
             (S rid) (trace w)).

(** [axios.post(url, body)] on the global object. *)
Definition axios_post (ep : Endpoint) (body : string) (owner : option nat)
    (w : World) : World :=
  emit (AxiosPost (outgoing Bare (store w) (fresh ep)) body owner) w.

(** ** context/AuthContext.jsx: what callers do when their promise settles *)

Definition continuation (k : Caller) (out : Outcome) (w : World) : World :=
  match k with
  | Plain => w
  | MeCheck =>
      (* .then(({data}) => setUser(data))
         .catch(() => { clearTokens(); setUser(null); })
         .finally(() => setLoading(false)) *)
      with_auth (setLoading false)
        match out with
        | Fulfilled data => with_auth (setUser (Some data)) w
        | Failed _ => with_auth (setUser None) (do_clearTokens w)
        end
  | LogoutCall =>
      (* try { await authAPI.logout(); } catch {}
         clearTokens(); setUser(null); *)
      with_auth (setUser None) (do_clearTokens w)
  end.

(** The promise of request [rid] settles; its caller resumes. *)
Definition settle (rid : nat) (out : Outcome) (w : World) : World :=
  match reqs w !! rid with
  | Some rq =>
      continuation (caller rq) out
        (emit (Settle rid out)
           (with_req rid (mkRequest (cfg rq) (caller rq) Settled) w))
  | None => w
  end.

(** ** services/api.js: the response interceptor *)

Definition is_401 (st : option Z) : bool :=
  match st with
  | Some s => (s =? 401)%Z
  | None => false
  end.

(** axios' default [validateStatus]. *)
Definition ok_status (st : option Z) : bool :=
  match st with
  | Some s => (200 <=? s)%Z && (s <? 300)%Z
  | None => false
  end.

(** A piece of interceptor code leaves the world changed and either settles
    the promise it returns or stays suspended at an [await]. *)
Abbreviation Resumed := (World * option Outcome)%type.

(** [(res) => res] *)
Definition on_fulfilled (data : string) (w : World) : Resumed :=
  (w, Some (Fulfilled data)).

(** [async (error) => { ... }], up to its [await] or its
    [return Promise.reject(error)]. *)
Definition on_rejected (error : AxiosError) (w : World) : Resumed :=
  let rid := config error in
  match reqs w !! rid with
  | Some rq =>
      let original := cfg rq in
      if is_401 (status error) && negb (_retry original)
         && truthy (refreshToken (store w))
      then
        let original' :=
          mkConfig (endpoint original) (Authorization original) true in
        (axios_post AuthRefresh (refreshToken (store w)) (Some rid)
           (with_req rid
              (mkRequest original' (caller rq) (AwaitRefresh error)) w),
         None)
      else (w, Some (Failed error))
  | None => (w, Some (Failed error))
  end.

(** The rest of the [try] block, once the refresh call has answered with
    [data = {access_token, refresh_token}]: rotate, re-attach, and
    [return api(original)].  The retry takes the place of the original call
    (same caller, same flags) and runs through the request interceptor
    again. *)
Definition refresh_resolved (rid : nat) (access refresh : string)
    (w : World) : Resumed :=
  match reqs w !! rid with
  | Some rq =>
      match phase rq with
      | AwaitRefresh _ =>
          let w1 := do_setTokens access refresh w in
          let original :=
            mkConfig (endpoint (cfg rq)) (Some (bearer access))
                     (_retry (cfg rq)) in
          let c := outgoing Instance (store w1) original in
          (emit (ApiSend rid c)
             (with_req rid (mkRequest c (caller rq) OnWire) w1),
           None)
      | _ => (w, None)
      end
  | None => (w, None)
  end.

(** The [catch] block, when the refresh call failed for whatever reason,
    followed by [return Promise.reject(error)]. *)
Definition refresh_rejected (rid : nat) (w : World) : Resumed :=
  match reqs w !! rid with
  | Some rq =>
      match phase rq with
      | AwaitRefresh error =>
          (do_onLogout (do_clearTokens w), Some (Failed error))
      | _ => (w, None)
      end
  | None => (w, None)
  end.

(** The caller of [rid] resumes if the interceptor settled its promise. *)
Definition resume (rid : nat) (r : Resumed) : World :=
  match r.2 with
  | Some out => settle rid out r.1
  | None => r.1
  end.

(** A response (or a network failure, [st = None]) arrives for a request
    that is on the wire. *)
Definition deliver (rid : nat) (st : option Z) (data : string)
    (w : World) : World :=
  match reqs w !! rid with
  | Some rq =>
      match phase rq with
      | OnWire =>
          resume rid
            (if ok_status st then on_fulfilled data w
             else on_rejected (mkError rid st) w)
      | _ => w
      end
  | None => w
  end.

(** ** context/AuthContext.jsx: entry points *)

(** The mount effect of [AuthProvider]; [at_] and [rt_] are
    [params.get('access_token')] and [params.get('refresh_token')].  The
    rewrite of the address bar ([history.replaceState]) touches nothing the
    client reads again and is left out. *)
Definition mount (at_ rt_ : option string) (w : World) : World :=
  let w1 := with_store (setLogoutHandler (setUser None)) w in
  let w2 :=
    if truthy_opt at_ && truthy_opt rt_
    then do_setTokens (or_empty at_) (or_empty rt_) w1
    else w1 in
  if hasTokens (store w2)
  then api_call MeCheck AuthMe w2
  else with_auth (setLoading false) w2.

(** [login]/[signup] up to their [await], and after it. *)
Definition login_submit (body : string) (w : World) : World :=
  axios_post AuthLogin body None w.

Definition signup_submit (body : string) (w : World) : World :=
  axios_post AuthSignup body None w.

Definition auth_resolved (access refresh u : string) (w : World) : World :=
  with_auth (setUser (Some u)) (do_setTokens access refresh w).

(** [logout] up to its [await]; the rest is [continuation LogoutCall]. *)
Definition logout (w : World) : World :=
  api_call LogoutCall AuthLogout w.

(** ** Events and runs *)

(** What can happen next: the page mounts or calls into the client, or the
    network answers.  [AuthReply] is a successful answer to a login or
    signup; [RefreshReply rid None] is any failure of the refresh call
    issued for [rid], a 401 included. *)
Inductive Event :=
| Mount (at_ rt_ : option string)
| Call (ep : Endpoint)
| LogoutClick
| LoginSubmit (body : string)
| SignupSubmit (body : string)
| AuthReply (access refresh u : string)
| Response (rid : nat) (st : option Z) (data : string)
| RefreshReply (rid : nat) (result : option (string * string)).

Definition step (w : World) (ev : Event) : World :=
  match ev with
  | Mount at_ rt_ => mount at_ rt_ w
  | Call ep => api_call Plain ep w
  | LogoutClick => logout w
  | LoginSubmit body => login_submit body w
  | SignupSubmit body => signup_submit body w
  | AuthReply a r u => auth_resolved a r u w
  | Response rid st data => deliver rid st data w
  | RefreshReply rid (Some (a, r)) => resume rid (refresh_resolved rid a r w)
  | RefreshReply rid None => resume rid (refresh_rejected rid w)
  end.

Definition run (w : World) (evs : list Event) : World :=
  fold_left step evs w.

(** The page has just loaded with [ls] in [localStorage]. *)
Definition boot (ls : Storage) : World :=
  mkWorld (load ls) (mkAuth None true) ∅ 0 [].

(** ** Vocabulary of the properties *)

(** The two operations of the token store, as a caller can sequence them. *)
Inductive StoreOp :=
| OpSet (access refresh : string)
| OpClear.

Definition apply_op (st : Store) (op : StoreOp) : Store :=
  match op with
  | OpSet a r => setTokens a r st
  | OpClear => clearTokens st
  end.

Definition run_ops (st : Store) (ops : list StoreOp) : Store :=
  fold_left apply_op ops st.

(** A token pair has both halves present. *)
Definition is_pair (p : string * string) : Prop :=
  truthy p.1 = true /\ truthy p.2 = true.

Definition op_ok (op : StoreOp) : Prop :=
  match op with
  | OpSet a r => is_pair (a, r)
  | OpClear => True
  end.

(** The store holds exactly [p] (or nothing), in memory and in
    [localStorage] alike. *)
Definition holds (st : Store) (p : option (string * string)) : Prop :=
  match p with
  | Some (a, r) =>
      getTokens st = (a, r)
      /\ getItem "ja_access" (localStorage st) = Some a
      /\ getItem "ja_refresh" (localStorage st) = Some r
  | None =>
      getTokens st = ("", "")
      /\ getItem "ja_access" (localStorage st) = None
      /\ getItem "ja_refresh" (localStorage st) = None
  end.

(** Either nothing is stored, or one whole pair is. *)
Definition consistent (st : Store) : Prop :=
  holds st None \/ exists p, is_pair p /\ holds st (Some p).

(** What the last operation of a sequence wrote. *)
Definition written (op : StoreOp) : option (string * string) :=
  match op with
  | OpSet a r => Some (a, r)
  | OpClear => None
  end.

(** In memory, the two halves are present together or absent together. *)
Definition paired (st : Store) : Prop :=
  truthy (accessToken st) = truthy (refreshToken st).

(** [TokenStore.get()] yields a non-empty pair. *)
Definition has_pair (st : Store) : bool :=
  truthy (accessToken st) && truthy (refreshToken st).

(** Counting effects in a trace. *)
Definition count (p : Effect -> bool) (tr : list Effect) : nat :=
  length (List.filter p tr).

Definition is_refresh_post (e : Effect) : bool :=
  match e with
  | AxiosPost (mkConfig AuthRefresh _ _) _ _ => true
  | _ => false
  end.

Definition is_refresh_for (rid : nat) (e : Effect) : bool :=
  match e with
  | AxiosPost (mkConfig AuthRefresh _ _) _ (Some o) => Nat.eqb o rid
  | _ => false
  end.

Definition is_retry_of (rid : nat) (e : Effect) : bool :=
  match e with
  | ApiSend r c => Nat.eqb r rid && _retry c
  | _ => false
  end.

Definition is_clear (e : Effect) : bool :=
  match e with
  | TokensCleared => true
  | _ => false
  end.

Definition is_hook (e : Effect) : bool :=
  match e with
  | LogoutHookRun => true
  | _ => false
  end.

Definition is_network (e : Effect) : bool :=
  match e with
  | ApiSend _ _ | AxiosPost _ _ _ => true
  | _ => false
  end.

(** The [Authorization] headers of the retries in a trace. *)
Definition retry_headers (tr : list Effect) : list (option string) :=
  flat_map (fun e =>
    match e with
    | ApiSend _ c => if _retry c then [Authorization c] else []
    | _ => []
    end) tr.

(** An effect that is not a request carrying an [Authorization] header. *)
Definition unauthenticated (e : Effect) : Prop :=
  match e with
  | ApiSend _ c | AxiosPost c _ _ => Authorization c = None
  | _ => True
  end.

(** Events that hand a new token pair to the client from outside: a
    successful login or signup, or a mount that finds both redirect
    parameters. *)
Definition installs (ev : Event) : bool :=
  match ev with
  | AuthReply _ _ _ => true
  | Mount at_ rt_ => truthy_opt at_ && truthy_opt rt_
  | _ => false
  end.

(** The handler of [rid] is suspended on its refresh call. *)
Definition refresh_pending (w : World) (rid : nat) : bool :=
  match reqs w !! rid with
  | Some rq =>
      match phase rq with
      | AwaitRefresh _ => true
      | _ => false
      end
  | None => false
  end.

(** A successful answer to a refresh call that was in flight in [w]. *)
Definition late_success (w : World) (ev : Event) : bool :=
  match ev with
  | RefreshReply rid (Some _) => refresh_pending w rid
  | _ => false
  end.

(** [rid] is on the wire and has not been retried. *)
Definition first_flight (w : World) (rid : nat) : Prop :=
  exists rq, reqs w !! rid = Some rq /\ phase rq = OnWire
             /\ _retry (cfg rq) = false.

(** [rid], called by page code, is suspended on its refresh call, holding
    [error]. *)
Definition awaiting (w : World) (rid : nat) (error : AxiosError) : Prop :=
  exists rq, reqs w !! rid = Some rq /\ phase rq = AwaitRefresh error
             /\ caller rq = Plain.

(** How often [rid] has been refreshed for and resent, against where it
    stands: a request on its first flight has seen neither, one suspended on
    its refresh call has been flagged and refreshed for but not resent, one
    on its second flight has seen one of each. *)
Definition attempts_ok (w : World) (rid : nat) : Prop :=
  let r := count (is_refresh_for rid) (trace w) in
  let t := count (is_retry_of rid) (trace w) in
  match reqs w !! rid with
  | Some rq =>
      match phase rq with
      | OnWire =>
          if _retry (cfg rq) then r = 1 /\ t = 1 else r = 0 /\ t = 0
      | AwaitRefresh _ => _retry (cfg rq) = true /\ r = 1 /\ t = 0
      | Settled => r <= 1 /\ t <= 1
      end
  | None => r = 0 /\ t = 0
  end.

Definition well_formed (w : World) : Prop :=
  (forall rid, next w <= rid -> reqs w !! rid = None)
  /\ forall rid, attempts_ok w rid.

(** Nothing is stored in [w], and every refresh call in flight in [w] was
    already in flight in [w0]. *)
Definition signed_out_since (w0 w : World) : Prop :=
  holds (store w) None
  /\ forall rid, refresh_pending w rid = true -> refresh_pending w0 rid = true.

(** The specification's single-flight contract, read on a trace: one refresh
    call in all, and one token on every retry. *)
Definition single_flight (tr : list Effect) : Prop :=
  count is_refresh_post tr = 1
  /\ exists tok, forall h, In h (retry_headers tr) -> h = Some (bearer tok).

(** The specification's contract for a failed rotation, read on a trace: the
    store is cleared once and the hook runs once. *)
Definition single_logout (tr : list Effect) : Prop :=
  count is_clear tr = 1 /\ count is_hook tr = 1.

(** [w'] continues [w]: its trace is that of [w] followed by effects that
    all satisfy [P]. *)
Definition extends (P : Effect -> Prop) (w w' : World) : Prop :=
  exists d, trace w' = (trace w ++ d)%list /\ Forall P d.

(** A call on the global [axios] object carries no [Authorization]
    header. *)
Definition bare_post (e : Effect) : Prop :=
  match e with
  | AxiosPost c _ _ => Authorization c = None
  | _ => True
  end.

(** The refresh call that the interceptor issues for [rid] out of [w]. *)
Definition refresh_post (w : World) (rid : nat) : Effect :=
  AxiosPost (mkConfig AuthRefresh None false) (refreshToken (store w))
    (Some rid).

(** The backend keeps its contract: whenever it answers a login, a signup
    or a refresh with success, both tokens are there. *)
Definition proper (ev : Event) : Prop :=
  match ev with
  | AuthReply a r _ => is_pair (a, r)
  | RefreshReply _ (Some (a, r)) => is_pair (a, r)
  | _ => True
  end.

(** A session stored by an earlier visit, used in the examples. *)
Definition stored_session : Storage :=
  <["ja_refresh":="R1"]> (<["ja_access":="A1"]> ∅).

(** Storage in which only one of the two keys is left. *)
Definition access_only : Storage := <["ja_access":="A1"]> ∅.

Definition refresh_only : Storage := <["ja_refresh":="R1"]> ∅.

Definition unauthorized : option Z := Some 401%Z.

(** ** Further vocabulary *)

(** What a reload of the page would read back from [localStorage] is what
    the module holds in memory. *)
Definition mirrored (st : Store) : Prop :=
  getTokens (load (localStorage st)) = getTokens st.

(** Nothing is stored and nobody is shown as logged in. *)
Definition logged_out (w : World) : Prop :=
  holds (store w) None /\ user (auth w) = None.

(** ** pages/DashboardPage.jsx *)

Module Dashboard.

(** A thread as the sidebar lists it.  Ids are opaque values compared with
    [===]; [other] stands for every further field of the object, which the
    page copies along untouched. *)
Record Thread := mkThread {
  id : nat;
  title : string;
  other : string
}.

(** A message as the backend returns it, and as the page keeps it. *)
Record RawMessage := mkRaw {
  m_role : string;
  m_content : string;
  m_attachments : option string;
  m_other : string
}.

Record Message := mkMessage {
  role : string;
  content : string;
  attachments : option string
}.

(** [(m) => ({ role: m.role, content: m.content, attachments: m.attachments })] *)
Definition view (m : RawMessage) : Message :=
  mkMessage (m_role m) (m_content m) (m_attachments m).

(** The state of [DashboardPage]; [chatKey] is [chatKeyRef.current]. *)
Record State := mkState {
  mobileOpen : bool;
  activePage : string;
  threads : list Thread;
  activeThreadId : option nat;
  loadedMessages : list Message;
  chatKey : nat
}.

Definition initial : State := mkState false "chat" [] None [] 0.

Definition PAGE_TITLES : gmap string string :=
  list_to_map [("chat", "Chat"); ("profile", "Profile"); ("resume", "Resumes")].

(** [PAGE_TITLES[activePage] || 'Chat'], for the keys the page navigates
    to. *)
Definition page_title (s : State) : string :=
  let t := or_empty (PAGE_TITLES !! activePage s) in
  if truthy t then t else "Chat".

Inductive Page := ProfilePage | ResumesPage | ChatPage.

(** The [switch] of [renderPage]. *)
Definition renderPage (s : State) : Page :=
  if decide (activePage s = "profile") then ProfilePage
  else if decide (activePage s = "resume") then ResumesPage
  else ChatPage.

Definition toggleMobile (s : State) : State :=
  mkState (negb (mobileOpen s)) (activePage s) (threads s) (activeThreadId s)
          (loadedMessages s) (chatKey s).

Definition navigate (page : string) (s : State) : State :=
  mkState (mobileOpen s) page (threads s) (activeThreadId s)
          (loadedMessages s) (chatKey s).

Definition newChat (s : State) : State :=
  mkState (mobileOpen s) "chat" (threads s) None [] (S (chatKey s)).

Definition setThreads (f : list Thread -> list Thread) (s : State) : State :=
  mkState (mobileOpen s) (activePage s) (f (threads s)) (activeThreadId s)
          (loadedMessages s) (chatKey s).

(** The mount effect and [refreshThreads], once [threadsAPI.list()] has
    settled: [reply] is [None] when the call failed, otherwise
    [data.threads], which may be missing. *)
Definition threads_listed (reply : option (option (list Thread)))
    (s : State) : State :=
  match reply with
  | Some data_threads => setThreads (fun _ => default [] data_threads) s
  | None => s
  end.

(** [selectThread(id)].  [captured] is the [activeThreadId] of the render
    the callback belongs to.  When it is the id asked for, the handler
    returns at once; otherwise it awaits [threadsAPI.get(id)] and then sets
    the state; [reply] is [None] when that call failed, otherwise
    [data.messages], which may be missing. *)
Definition selectThread_calls (captured : option nat) (tid : nat) : bool :=
  if decide (captured = Some tid) then false else true.

Definition selectThread (captured : option nat) (tid : nat)
    (reply : option (option (list RawMessage))) (s : State) : State :=
  if selectThread_calls captured tid then
    let msgs :=
      match reply with
      | Some data_messages => map view (default [] data_messages)
      | None => []
      end in
    mkState (mobileOpen s) "chat" (threads s) (Some tid) msgs (S (chatKey s))
  else s.

(** [deleteThread(id)], once [threadsAPI.delete(id)] has settled with
    success ([ok]) or not. *)
Definition deleteThread (captured : option nat) (tid : nat) (ok : bool)
    (s : State) : State :=
  if ok then
    let s1 := setThreads (filter (fun t => id t <> tid)) s in
    if decide (captured = Some tid)
    then mkState (mobileOpen s1) (activePage s1) (threads s1) None []
                 (S (chatKey s1))
    else s1
  else s.

(** [renameThread(id, newTitle)], once [threadsAPI.updateTitle] has
    settled. *)
Definition renameThread (tid : nat) (newTitle : string) (ok : bool)
    (s : State) : State :=
  if ok then
    setThreads
      (map (fun t => if decide (id t = tid)
                     then mkThread (id t) newTitle (other t) else t)) s
  else s.

End Dashboard.

(** ** pages/ProfilePage.jsx *)

Module Profile.

(** The values found in the fields of a profile item. *)
Inductive Val :=
| Str (s : string)
| Bool (b : bool)
| Strs (l : list string)
| Undef.

(** An item (an education, an experience, a project, an achievement) is an
    object: a finite map from field names to values. *)
Abbreviation Item := (gmap string Val).

(** [{ ...a, ...b }]: the fields of [b] win. *)
Definition spread (a b : Item) : Item := b ∪ a.

(** One position of a JavaScript array: an object, the value [undefined],
    or a hole (an index below [length] that was never assigned). *)
Inductive Slot :=
| Hole
| Undefined
| Obj (it : Item).

(** The profile, as far as the editing callbacks go: [personal] (which the
    backend may leave out) and the array-valued sections, by key. *)
Record State := mkProfile {
  personal : option (gmap string string);
  sections : gmap string (list Slot)
}.

Definition emptyExperience : Item :=
  list_to_map
    [("role", Str ""); ("company", Str ""); ("location", Str "");
     ("start_date", Str ""); ("end_date", Str ""); ("is_current", Bool false);
     ("description", Str "")].

Definition emptyProject : Item :=
  list_to_map
    [("name", Str ""); ("tech_stack", Strs []); ("url", Str "");
     ("description", Str "")].

Definition emptyEducation : Item :=
  list_to_map
    [("institution", Str ""); ("location", Str ""); ("degree", Str "");
     ("start_date", Str ""); ("end_date", Str ""); ("is_current", Bool false);
     ("details", Str "")].

Definition emptyLeadership : Item :=
  list_to_map [("description", Str "")].

(** [[...arr]]: a copy in which holes have become [undefined]. *)
Definition copy (arr : list Slot) : list Slot :=
  map (fun x => match x with Hole => Undefined | _ => x end) arr.

(** [arr.filter((_, j) => j !== i)], with [j] counting from [from]:
    [filter] does not visit holes, so they are dropped as well. *)
Fixpoint filter_from (from i : nat) (arr : list Slot) : list Slot :=
  match arr with
  | [] => []
  | x :: rest =>
      match x with
      | Hole => filter_from (S from) i rest
      | _ => if Nat.eqb from i then filter_from (S from) i rest
             else x :: filter_from (S from) i rest
      end
  end.

(** [arr[i] = v] on an array without holes: in range it replaces, beyond
    the end it grows the array, leaving holes in between. *)
Definition assign (i : nat) (v : Slot) (arr : list Slot) : list Slot :=
  if Nat.ltb i (length arr) then <[i:=v]> arr
  else (arr ++ replicate (i - length arr)%nat Hole ++ [v])%list.

(** [arr[i]] read as an object to spread: anything but an object
    contributes no field. *)
Definition fields_at (i : nat) (arr : list Slot) : Item :=
  match arr !! i with
  | Some (Obj it) => it
  | _ => ∅
  end.

Definition setSection (key : string) (arr : list Slot) (p : State) : State :=
  mkProfile (personal p) (<[key:=arr]> (sections p)).

(** [addItem(key, factory)]:
    [{ ...prev, [key]: [...(prev[key] || []), factory()] }]. *)
Definition addItem (key : string) (factory : Item) (p : State) : State :=
  setSection key
    (copy (default [] (sections p !! key)) ++ [Obj factory])%list p.

(** [removeItem(key, i)]:
    [{ ...prev, [key]: prev[key].filter((_, j) => j !== i) }].  When the
    section is missing, [prev[key].filter] throws: no new state. *)
Definition removeItem (key : string) (i : nat) (p : State) : option State :=
  match sections p !! key with
  | Some arr => Some (setSection key (filter_from 0 i arr) p)
  | None => None
  end.

(** [updateItem(key, i, updated)]:
    [const arr = [...prev[key]]; arr[i] = { ...arr[i], ...updated };
     return { ...prev, [key]: arr }].  Spreading a missing section
    throws. *)
Definition updateItem (key : string) (i : nat) (updated : Item) (p : State)
    : option State :=
  match sections p !! key with
  | Some arr0 =>
      let arr := copy arr0 in
      Some (setSection key
              (assign i (Obj (spread (fields_at i arr) updated)) arr) p)
  | None => None
  end.

(** [updateItemField(key, i, field, val) = updateItem(key, i, {[field]: val})] *)
Definition updateItemField (key : string) (i : nat) (field : string)
    (val : Val) (p : State) : option State :=
  updateItem key i {[field := val]} p.

(** [updatePersonal(f, v)]:
    [{ ...prev, personal: { ...prev.personal, [f]: v } }]. *)
Definition updatePersonal (f v : string) (p : State) : State :=
  mkProfile (Some (<[f:=v]> (default ∅ (personal p)))) (sections p).

(** The object that the "Current" checkbox of [DateFields] passes to
    [onChange] for the rendered [item]:
    [{ ...item, is_current: checked, end_date: checked ? '' : item.end_date }]. *)
Definition current_toggled (checked : bool) (item : Item) : Item :=
  <["end_date":=if checked then Str "" else default Undef (item !! "end_date")]>
    (<["is_current":=Bool checked]> item).

(** The objects that the two date inputs pass to [onChange]. *)
Definition start_typed (v : string) (item : Item) : Item :=
  <["start_date":=Str v]> item.

Definition end_typed (v : string) (item : Item) : Item :=
  <["end_date":=Str v]> item.

(** An array as the backend sends it and as the page keeps it in use: every
    position holds an object. *)
Definition dense (arr : list Slot) : Prop :=
  Forall (fun x => exists it, x = Obj it) arr.

End Profile.

(** ** pages/AuthPage.jsx *)

Module AuthPage.

(** What [handleSubmit] reads of a caught error: [err.response?.data?.detail]
    and the [msg] fields of [err.response?.data?.errors], each absent when
    any link of the chain is. *)
Record Err := mkErr {
  detail : option string;
  errors : option (list (option string))
}.

(** [arr.join(sep)]: [null] and [undefined] elements print as nothing. *)
Definition join (sep : string) (l : list (option string)) : string :=
  String.concat sep (map or_empty l).

(** [detail || errors?.map((e) => e.msg).join(', ') || 'Something went wrong'] *)
Definition error_message (e : Err) : string :=
  let a := or_empty (detail e) in
  if truthy a then a
  else
    let b := match errors e with Some l => join ", " l | None => "" end in
    if truthy b then b else "Something went wrong".

Record Form := mkForm {
  username : string;
  email : string;
  password : string
}.

Record State := mkState {
  isLogin : bool;
  loading : bool;
  error : string;
  form : Form
}.

(** The call [handleSubmit] awaits. *)
Inductive Submitted :=
| LoginWith (username password : string)
| SignupWith (username email password : string).

Definition submitted (s : State) : Submitted :=
  if isLogin s then LoginWith (username (form s)) (password (form s))
  else SignupWith (username (form s)) (email (form s)) (password (form s)).

(** [handleSubmit] up to its [await]: [setError(''); setLoading(true)]. *)
Definition submit_start (s : State) : State :=
  mkState (isLogin s) true "" (form s).

(** [handleSubmit] after it; [failure] is the caught error, if any. *)
Definition submit_done (failure : option Err) (s : State) : State :=
  mkState (isLogin s) false
    (match failure with Some e => error_message e | None => error s end)
    (form s).

(** [toggle]: [setIsLogin((p) => !p); setError('')]. *)
Definition toggle (s : State) : State :=
  mkState (negb (isLogin s)) (loading s) "" (form s).

End AuthPage.

(** ** services/api.js: [chatAPI], and the pages that call it *)

Module ChatAPI.

(** The values passed as [threadId] and [context]. *)
Inductive JsVal :=
| JNull
| JId (n : nat)
| JObj (fields : list (string * string)).

(** The body of the POST to [/chat]. *)
Record Body := mkBody {
  message : string;
  thread_id : JsVal;
  context : JsVal
}.

(** [send: (message, threadId = null, context = null) =>
      api.post('/chat', { message, thread_id: threadId, context })];
    an argument that is not passed is [None]. *)
Definition send (message : string) (threadId context : option JsVal) : Body :=
  mkBody message (default JNull threadId) (default JNull context).

End ChatAPI.

Module ChatPage.

Section WithTrim.

(** [String.prototype.trim]. *)
Variable trim : string -> string.

Record Message := mkMessage {
  role : string;
  content : string;
  attachments : option string
}.

(** The [data] of a successful answer; [thread_id] is [None] when it is
    missing or falsy. *)
Record Reply := mkReply {
  response : string;
  reply_attachments : option string;
  thread_id : option nat
}.

Record State := mkState {
  messages : list Message;
  currentThreadId : option nat;
  input : string;
  loading : bool
}.

(** [const msg = text || input.trim()] *)
Definition message_of (text : option string) (s : State) : string :=
  let t := or_empty text in
  if truthy t then t else trim (input s).

(** [if (!msg || loading) return;] *)
Definition sends (text : option string) (s : State) : bool :=
  truthy (message_of text s) && negb (loading s).

(** [send(text)] up to its [await]: the new state, and the body posted, if
    any. *)
Definition send_start (text : option string) (s : State)
    : State * option ChatAPI.Body :=
  if sends text s then
    let msg := message_of text s in
    (mkState (messages s ++ [mkMessage "user" msg None])%list
             (currentThreadId s) "" true,
     Some (ChatAPI.send msg
             (Some (match currentThreadId s with
                    | Some tid => ChatAPI.JId tid
                    | None => ChatAPI.JNull
                    end))
             None))
  else (s, None).

Definition apology : string :=
  "Sorry, something went wrong. Please try again.".

(** [send] after its [await].  [captured] is the [currentThreadId] of the
    render the call was made from; [reply] is [None] when the call failed.
    The second component is the thread id handed to [onNewThreadCreated],
    if it is called. *)
Definition send_done (captured : option nat) (reply : option Reply)
    (s : State) : State * option nat :=
  match reply with
  | Some data =>
      let msgs :=
        (messages s ++
         [mkMessage "assistant" (response data) (reply_attachments data)])%list in
      match thread_id data with
      | Some tid =>
          if decide (Some tid = captured)
          then (mkState msgs (currentThreadId s) (input s) false, None)
          else (mkState msgs (Some tid) (input s) false, Some tid)
      | None => (mkState msgs (currentThreadId s) (input s) false, None)
      end
  | None =>
      (mkState (messages s ++ [mkMessage "assistant" apology None])%list
               (currentThreadId s) (input s) false,
       None)
  end.

End WithTrim.

End ChatPage.

Module ResumesPage.

(** A JavaScript string as [length] and [slice] see it: the sequence of
    its UTF-16 code units (a character outside the basic plane is two of
    them). *)
Abbreviation Utf16 := (list N).

Section WithTrim.

Variable trim : string -> string.

(** The code units of a literal made of ASCII characters. *)
Definition units (s : string) : Utf16 :=
  map Ascii.N_of_ascii (String.list_ascii_of_string s).

(** [x.slice(b, e)] for non-negative integers [b] and [e]: the units from
    index [b] up to, not including, index [e], both clipped to the
    length. *)
Definition slice (b e : nat) (x : Utf16) : Utf16 :=
  take (e - b) (drop b x).

(** [jobDesc.slice(0, 60) + (jobDesc.length > 60 ? '...' : '')] *)
Definition resume_title (jobDesc : Utf16) : Utf16 :=
  (slice 0 60 jobDesc
   ++ (if Nat.ltb 60 (length jobDesc) then units "..." else units ""))%list.

(** What [generateResume] posts, unless the description is blank:
    [chatAPI.send(`Tailor my resume for this role: ${jobDesc}`,
                  { job_description: jobDesc })]. *)
Definition generate_request (jobDesc : string) : option ChatAPI.Body :=
  if truthy (trim jobDesc) then
    Some (ChatAPI.send
            ("Tailor my resume for this role: " ++ jobDesc)%string
            (Some (ChatAPI.JObj [("job_description", jobDesc)]))
            None)
  else None.

End WithTrim.

End ResumesPage.

(** ** components/Sidebar.jsx *)

Module Sidebar.

Section WithTrim.

Variable trim : string -> string.

(** The editing state of the sidebar; [editingId] is [None] when it is
    [null]. *)
Record State := mkState {
  editingId : option nat;
  editTitle : string
}.

(** [startRename(e, chat)] *)
Definition startRename (chat_id : nat) (chat_title : string) : State :=
  mkState (Some chat_id) chat_title.

(** The truth value of [editingId]: [null] and the id [0] are falsy. *)
Definition truthy_id (i : option nat) : bool :=
  match i with
  | Some n => negb (Nat.eqb n 0)
  | None => false
  end.

(** [confirmRename]: the state after it, and the arguments of
    [onRenameChat] when it is called.  [onRenameChat] tells whether the
    parent passed the callback.
    [if (editingId && editTitle.trim() && onRenameChat)
       onRenameChat(editingId, editTitle.trim());
     setEditingId(null);] *)
Definition confirmRename (onRenameChat : bool) (s : State)
    : State * option (nat * string) :=
  (mkState None (editTitle s),
   if truthy_id (editingId s) && truthy (trim (editTitle s)) && onRenameChat
   then
     match editingId s with
     | Some tid => Some (tid, trim (editTitle s))
     | None => None
     end
   else None).

(** [cancelRename]: [setEditingId(null)]. *)
Definition cancelRename (s : State) : State :=
  mkState None (editTitle s).

End WithTrim.

End Sidebar.

(** * Properties *)

(** ** The token store *)

Section TokenStore.

Implicit Types (st : Store) (ops : list StoreOp).

Lemma truthy_spec (s : string) : truthy s = true <-> s <> "".
Proof. destruct s; simpl; split; congruence. Qed.

Lemma holds_setTokens st a r : holds (setTokens a r st) (Some (a, r)).
Proof.
  unfold holds, setTokens, getTokens, getItem, setItem; simpl.
  split; [reflexivity|]. split.
  - rewrite lookup_insert_ne by discriminate. apply lookup_insert_eq.
  - apply lookup_insert_eq.
Qed.

Lemma holds_clearTokens st : holds (clearTokens st) None.
Proof.
  unfold holds, clearTokens, getTokens, getItem, removeItem; simpl.
  split; [reflexivity|]. split.
  - rewrite lookup_delete_ne by discriminate. apply lookup_delete_eq.
  - apply lookup_delete_eq.
Qed.

Lemma holds_apply_op st op : holds (apply_op st op) (written op).
Proof. destruct op; [apply holds_setTokens | apply holds_clearTokens]. Qed.

Lemma consistent_apply_op st op : op_ok op -> consistent (apply_op st op).
Proof.
  destruct op as [a r|]; intros Hok.
  - right. exists (a, r). split; [exact Hok | apply holds_setTokens].
  - left. apply holds_clearTokens.
Qed.

Lemma run_ops_snoc st ops op :
  run_ops st (ops ++ [op])%list = apply_op (run_ops st ops) op.
Proof. unfold run_ops. rewrite fold_left_app. reflexivity. Qed.

Lemma consistent_run_ops st ops :
  consistent st -> Forall op_ok ops -> consistent (run_ops st ops).
Proof.
  intros Hst Hops. revert st Hst.
  induction Hops as [|op ops Hop _ IH]; intros st Hst; [exact Hst|].
  apply IH. now apply consistent_apply_op.
Qed.

Lemma consistent_paired st : consistent st -> paired st.
Proof.
  unfold paired, getTokens.
  intros [(Hm & _)|((a, r) & (Ha & Hr) & Hm & _)];
    unfold getTokens in Hm; simpl in *; inversion Hm; subst; simpl;
    congruence.
Qed.

Lemma consistent_load_empty : consistent (load ∅).
Proof. left. repeat split. Qed.

(** The event loop writes to the store through [setTokens] and
    [clearTokens] only, so the store is consistent throughout every run in
    which the backend keeps its contract. *)

Lemma consistent_continuation k out w :
  consistent (store w) -> consistent (store (continuation k out w)).
Proof.
  intros H. destruct k; simpl.
  - exact H.
  - destruct out; simpl; [exact H | left; apply holds_clearTokens].
  - left; apply holds_clearTokens.
Qed.

Lemma consistent_settle rid out w :
  consistent (store w) -> consistent (store (settle rid out w)).
Proof.
  intros H. unfold settle. destruct (reqs w !! rid); [|exact H].
  now apply consistent_continuation.
Qed.

Lemma consistent_resume rid (r : Resumed) :
  consistent (store r.1) -> consistent (store (resume rid r)).
Proof.
  intros H. unfold resume. destruct r.2; [|exact H].
  now apply consistent_settle.
Qed.

Lemma consistent_deliver rid status data w :
  consistent (store w) -> consistent (store (deliver rid status data w)).
Proof.
  intros H. unfold deliver. destruct (reqs w !! rid) as [rq|] eqn:Hrq; [|exact H].
  destruct (phase rq); try exact H.
  apply consistent_resume. destruct (ok_status status); [exact H|].
  unfold on_rejected. simpl. rewrite Hrq.
  now match goal with |- context [if ?b then _ else _] => destruct b end.
Qed.

Lemma truthy_or_empty o : truthy_opt o = true -> truthy (or_empty o) = true.
Proof.
  destruct o as [s|]; simpl; [|discriminate]. intros H. now rewrite H.
Qed.

Lemma consistent_step w ev :
  consistent (store w) -> proper ev -> consistent (store (step w ev)).
Proof.
  intros H Hev.
  destruct ev as [at_ rt_|ep| |body|body|a r u|rid status data|rid res];
    simpl in *; try exact H.
  - unfold mount.
    destruct (truthy_opt at_ && truthy_opt rt_) eqn:Hb.
    + apply andb_prop in Hb as [Ha Hr].
      assert (consistent (setTokens (or_empty at_) (or_empty rt_)
                            (setLogoutHandler (setUser None) (store w)))) as Hc.
      { apply (consistent_apply_op _ (OpSet _ _)).
        split; now apply truthy_or_empty. }
      now match goal with |- context [if ?b then _ else _] => destruct b end.
    + now match goal with |- context [if ?b then _ else _] => destruct b end.
  - now apply (consistent_apply_op _ (OpSet a r)).
  - now apply consistent_deliver.
  - destruct res as [[a r]|]; cbv beta iota; apply consistent_resume.
    + unfold refresh_resolved. destruct (reqs w !! rid) as [rq|]; [|exact H].
      destruct (phase rq); try exact H.
      now apply (consistent_apply_op _ (OpSet a r)).
    + unfold refresh_rejected. destruct (reqs w !! rid) as [rq|]; [|exact H].
      destruct (phase rq); try exact H. cbn [fst].
      assert (store (do_onLogout (do_clearTokens w)) = clearTokens (store w))
        as ->; [|left; apply holds_clearTokens].
      unfold do_onLogout. now destruct (onLogout _).
Qed.

Lemma consistent_run evs : forall w,
  consistent (store w) -> Forall proper evs -> consistent (store (run w evs)).
Proof.
  induction evs as [|ev evs IH]; intros w H Hevs; [exact H|].
  apply Forall_cons in Hevs as [Hev Hevs]. simpl.
  apply IH; [now apply consistent_step | exact Hevs].
Qed.

(** C5.  Across any sequence of set and clear operations, right after each
    operation the store holds exactly what that operation wrote, both
    halves together, in memory and in [localStorage]: the pair of the last
    [setTokens], or nothing after a [clearTokens].  Hence a store that
    starts out consistent never holds one half of a pair without the other,
    nor halves written by different operations; and this is so throughout
    every run of the client against a backend that keeps its contract. *)
Theorem token_pair_atomicity st ops :
  Forall op_ok ops ->
  (forall pre op suf, ops = (pre ++ op :: suf)%list ->
     holds (run_ops st (pre ++ [op])) (written op))
  /\ (consistent st -> forall n,
        consistent (run_ops st (take n ops))
        /\ paired (run_ops st (take n ops)))
  /\ (forall ls evs,
        consistent (load ls) -> Forall proper evs ->
        consistent (store (run (boot ls) evs))
        /\ paired (store (run (boot ls) evs))).
Proof.
  intros Hops. split; [|split].
  - intros pre op suf _. rewrite run_ops_snoc. apply holds_apply_op.
  - intros Hst n.
    assert (consistent (run_ops st (take n ops))) as Hc.
    { apply consistent_run_ops; [exact Hst|]. now apply Forall_take. }
    split; [exact Hc | now apply consistent_paired].
  - intros ls evs Hls Hevs.
    assert (consistent (store (run (boot ls) evs))) as Hc
      by now apply consistent_run.
    split; [exact Hc | now apply consistent_paired].
Qed.

Lemma token_pair_atomicity_witness :
  let ops := [OpSet "A1" "R1"; OpClear; OpSet "A2" "R2"] in
  holds (run_ops (load ∅) ops) (Some ("A2", "R2"))
  /\ consistent (run_ops (load ∅) (take 2 ops)).
Proof.
  intros ops.
  assert (Forall op_ok ops) as Hops.
  { repeat constructor. }
  destruct (token_pair_atomicity (load ∅) ops Hops) as (Hlast & Hall & _).
  split.
  - exact (Hlast [OpSet "A1" "R1"; OpClear] (OpSet "A2" "R2") [] eq_refl).
  - exact (proj1 (Hall consistent_load_empty 2)).
Defined.

End TokenStore.

(** ** The request interceptor *)

Section RequestInterceptor.

Lemma truthy_false (s : string) : truthy s = false -> s = "".
Proof. destruct s; simpl; congruence. Qed.

Lemma has_pair_paired (st : Store) :
  paired st -> has_pair st = truthy (accessToken st).
Proof.
  unfold paired, has_pair. intros <-. now destruct (truthy (accessToken st)).
Qed.

(** C7, as the code has it.  The request interceptor looks at the access
    token alone: it attaches [Bearer <access token>] exactly when the
    stored access token is non-empty, whether or not a refresh token is
    stored with it, and otherwise hands the config on as its caller built
    it, so a call built without a header leaves without one.  On a store
    whose halves are present or absent together, a non-empty access token
    is the same as a non-empty pair.  The same holds for what [api(...)]
    puts on the wire. *)
Theorem bearer_attached_iff_access_token (st : Store) (c : Config) :
  (truthy (accessToken st) = true ->
   request_interceptor st c
   = mkConfig (endpoint c) (Some (bearer (accessToken st))) (_retry c))
  /\ (truthy (accessToken st) = false -> request_interceptor st c = c)
  /\ (Authorization c = None ->
      (Authorization (request_interceptor st c)
       = Some (bearer (accessToken st))
       <-> accessToken st <> "")
      /\ (Authorization (request_interceptor st c) = None
          <-> accessToken st = ""))
  /\ endpoint (request_interceptor st c) = endpoint c
  /\ _retry (request_interceptor st c) = _retry c
  /\ (paired st -> has_pair st = truthy (accessToken st))
  /\ forall w k ep,
       store w = st ->
       trace (api_call k ep w) =
       (trace w ++
        [ApiSend (next w)
           (mkConfig ep
              (if truthy (accessToken st)
               then Some (bearer (accessToken st)) else None)
              false)])%list.
Proof.
  assert (paired st -> has_pair st = truthy (accessToken st)) as Hp
    by apply has_pair_paired.
  assert (forall w k ep,
            store w = st ->
            trace (api_call k ep w) =
            (trace w ++
             [ApiSend (next w)
                (mkConfig ep
                   (if truthy (accessToken st)
                    then Some (bearer (accessToken st)) else None)
                   false)])%list) as Htr.
  { intros w k ep <-.
    unfold api_call, outgoing, request_interceptor, fresh, emit. simpl.
    now destruct (truthy (accessToken (store w))). }
  split; [|split; [|split; [|split; [|split; [|split;
    [exact Hp | exact Htr]]]]]];
    clear Hp Htr; unfold request_interceptor;
    destruct (truthy (accessToken st)) eqn:Ht;
    try reflexivity; try discriminate.
  - intros _. apply truthy_spec in Ht. simpl.
    split; split; intros; congruence.
  - intros Hc. apply truthy_false in Ht. rewrite Hc.
    split; split; intros; congruence.
Qed.

Lemma bearer_attached_iff_access_token_witness :
  let st := load access_only in
  request_interceptor st (fresh AuthMe)
  = mkConfig AuthMe (Some "Bearer A1") false
  /\ request_interceptor (load refresh_only) (fresh AuthMe) = fresh AuthMe.
Proof.
  intros st. split.
  - exact (proj1 (bearer_attached_iff_access_token st (fresh AuthMe))
             eq_refl).
  - exact (proj1 (proj2 (bearer_attached_iff_access_token
                           (load refresh_only) (fresh AuthMe)))
             eq_refl).
Defined.

(** C7 fails as stated: only the access token is stored, so the store
    yields no pair, and yet the interceptor attaches the header and the
    call goes out with it. *)
Lemma bearer_attached_without_pair :
  let st := load access_only in
  getTokens st = ("A1", "")
  /\ has_pair st = false
  /\ Authorization (request_interceptor st (fresh AuthMe))
     = Some "Bearer A1"
  /\ trace (api_call Plain AuthMe (boot access_only))
     = [ApiSend 0 (mkConfig AuthMe (Some "Bearer A1") false)].
Proof. now repeat split. Qed.

End RequestInterceptor.

(** ** Bootstrap *)

Section Bootstrap.

(** C9, as the code has it.  The mount effect asks [hasTokens()], which
    looks at the access token alone.  When the page loads with no stored
    access token (a refresh token may be stored or not) and the address
    does not deliver both tokens, the session is anonymous at once
    ([user] is null, [loading] is false), the store is as it was loaded,
    and nothing is sent: no request is created and the trace is empty. *)
Theorem bootstrap_without_access_token_is_anonymous
    (ls : Storage) (at_ rt_ : option string) :
  truthy (accessToken (load ls)) = false ->
  truthy_opt at_ && truthy_opt rt_ = false ->
  let w := mount at_ rt_ (boot ls) in
  auth w = mkAuth None false
  /\ has_pair (store w) = false
  /\ accessToken (store w) = ""
  /\ refreshToken (store w) = refreshToken (load ls)
  /\ localStorage (store w) = ls
  /\ reqs w = ∅
  /\ trace w = []
  /\ count is_network (trace w) = 0.
Proof.
  intros Hn Hp w. subst w.
  unfold mount, boot. rewrite Hp. unfold hasTokens. simpl.
  change (or_empty (getItem "ja_access" ls)) with (accessToken (load ls)).
  rewrite Hn. simpl.
  change (or_empty (getItem "ja_access" ls)) with (accessToken (load ls)).
  unfold has_pair. simpl.
  change (or_empty (getItem "ja_access" ls)) with (accessToken (load ls)).
  rewrite Hn. split; [reflexivity|]. split; [reflexivity|].
  split; [now apply truthy_false|]. now repeat split.
Qed.

Lemma bootstrap_without_access_token_is_anonymous_witness :
  let w := mount (Some "A9") None (boot refresh_only) in
  auth w = mkAuth None false
  /\ refreshToken (store w) = "R1"
  /\ trace w = [].
Proof.
  intros w.
  destruct (bootstrap_without_access_token_is_anonymous refresh_only
              (Some "A9") None eq_refl eq_refl)
    as (Ha & _ & _ & Hr & _ & _ & Ht & _).
  split; [exact Ha|]. split; [exact Hr | exact Ht].
Defined.

(** C9 fails as stated: the address delivers nothing and only the access
    token is stored, so no pair is; yet [hasTokens()] is true, the identity
    endpoint is called with that token, and the page keeps loading. *)
Lemma lone_access_token_is_validated :
  let w := mount None None (boot access_only) in
  getTokens (load access_only) = ("A1", "")
  /\ has_pair (load access_only) = false
  /\ auth w = mkAuth None true
  /\ trace w = [ApiSend 0 (mkConfig AuthMe (Some "Bearer A1") false)]
  /\ count is_network (trace w) = 1.
Proof. now repeat split. Qed.

End Bootstrap.

(** ** The response interceptor, one request at a time *)

Section ResponseInterceptor.

Implicit Types (w : World) (error : AxiosError) (rq : Request).

Lemma is_401_spec (st : option Z) : is_401 st = true <-> st = Some 401%Z.
Proof.
  destruct st as [s|]; simpl; [|split; discriminate].
  rewrite Z.eqb_eq. split; congruence.
Qed.

Lemma is_401_false (st : option Z) : st <> Some 401%Z -> is_401 st = false.
Proof.
  intros H. destruct (is_401 st) eqn:E; [|reflexivity].
  now apply is_401_spec in E.
Qed.

(** C6.  A failure whose status is not 401 (or that has no response at all)
    leaves the interceptor as it came: the promise is rejected with the very
    same error and the world is untouched, so no refresh call, no retry, no
    change to the token store and no logout hook.  Seen from page code, the
    only thing that happens is that its promise is rejected. *)
Theorem non_401_propagates_unchanged w error :
  status error <> Some 401%Z ->
  on_rejected error w = (w, Some (Failed error))
  /\ forall rid data rq,
       reqs w !! rid = Some rq -> phase rq = OnWire -> caller rq = Plain ->
       config error = rid -> ok_status (status error) = false ->
       let w' := step w (Response rid (status error) data) in
       store w' = store w /\ auth w' = auth w
       /\ trace w' = (trace w ++ [Settle rid (Failed error)])%list.
Proof.
  intros Hs. apply is_401_false in Hs.
  assert (on_rejected error w = (w, Some (Failed error))) as Hrej.
  { unfold on_rejected. rewrite Hs. simpl. now destruct (reqs w !! config error). }
  split; [exact Hrej|].
  intros rid data rq Hrq Hph Hk Hrid Hok w'. subst w'. simpl.
  unfold deliver. rewrite Hrq, Hph, Hok.
  replace (mkError rid (status error)) with error
    by (destruct error; simpl in *; congruence).
  rewrite Hrej. unfold resume, settle; simpl. rewrite Hrq, Hk. simpl.
  repeat split.
Qed.

Lemma non_401_propagates_unchanged_witness :
  let w := run (boot stored_session) [Call (Path "/profile")] in
  let error := mkError 0 (Some 500%Z) in
  on_rejected error w = (w, Some (Failed error)).
Proof.
  intros w error.
  refine (proj1 (non_401_propagates_unchanged w error _)).
  discriminate.
Defined.

(** C4.  When a 401 makes the interceptor start a refresh, it suspends
    holding that very error; and when the refresh call then fails, the
    [catch] block empties the token store (memory and [localStorage]), runs
    the registered logout handler once, and the promise is rejected with
    the error of the original request. *)
Theorem refresh_failure_rejects_original w error rq fn :
  reqs w !! config error = Some rq ->
  status error = Some 401%Z ->
  _retry (cfg rq) = false ->
  truthy (refreshToken (store w)) = true ->
  onLogout (store w) = Some fn ->
  let w1 := (on_rejected error w).1 in
  (on_rejected error w).2 = None
  /\ (exists rq1, reqs w1 !! config error = Some rq1
                  /\ phase rq1 = AwaitRefresh error
                  /\ caller rq1 = caller rq)
  /\ onLogout (store w1) = Some fn
  /\ forall w2 rq2,
       reqs w2 !! config error = Some rq2 ->
       phase rq2 = AwaitRefresh error ->
       onLogout (store w2) = Some fn ->
       let r := refresh_rejected (config error) w2 in
       r.2 = Some (Failed error)
       /\ holds (store r.1) None
       /\ store r.1 = clearTokens (store w2)
       /\ auth r.1 = fn (auth w2)
       /\ trace r.1 = (trace w2 ++ [TokensCleared; LogoutHookRun])%list.
Proof.
  intros Hrq Hs Hr Ht Hfn w1. subst w1.
  apply is_401_spec in Hs.
  unfold on_rejected. rewrite Hrq, Hs, Hr, Ht. simpl.
  split; [reflexivity|]. split.
  { eexists. rewrite lookup_insert_eq. split; [reflexivity|]. now split. }
  split; [exact Hfn|].
  intros w2 rq2 Hrq2 Hph2 Hfn2.
  unfold refresh_rejected. rewrite Hrq2, Hph2.
  unfold do_onLogout. simpl. rewrite Hfn2. simpl.
  split; [reflexivity|]. split; [apply holds_clearTokens|].
  repeat split. now rewrite <- app_assoc.
Qed.

Lemma refresh_failure_rejects_original_witness :
  let w := run (boot stored_session)
             [Mount None None; Call (Path "/threads")] in
  let error := mkError 1 unauthorized in
  let w1 := (on_rejected error w).1 in
  (refresh_rejected 1 w1).2 = Some (Failed error)
  /\ holds (store (refresh_rejected 1 w1).1) None.
Proof.
  intros w error w1.
  destruct (refresh_failure_rejects_original w error
              (mkRequest (mkConfig (Path "/threads") (Some "Bearer A1") false)
                 Plain OnWire)
              (setUser None) eq_refl eq_refl eq_refl eq_refl eq_refl)
    as (_ & _ & _ & H).
  destruct (H w1 (mkRequest
                    (mkConfig (Path "/threads") (Some "Bearer A1") true)
                    Plain (AwaitRefresh error)) eq_refl eq_refl eq_refl)
    as (Hout & Hempty & _).
  split; [exact Hout | exact Hempty].
Defined.

End ResponseInterceptor.

(** ** Runs of the event loop *)

Section Runs.

Implicit Types (w : World) (rid : nat) (tr : list Effect).

Lemma count_app p tr tr' : count p (tr ++ tr') = count p tr + count p tr'.
Proof. unfold count. now rewrite List.filter_app, length_app. Qed.

Lemma count_snoc p tr e :
  count p (tr ++ [e]) = count p tr + (if p e then 1 else 0).
Proof. rewrite count_app. unfold count. simpl. now destruct (p e). Qed.

Lemma run_snoc w evs ev : run w (evs ++ [ev]) = step (run w evs) ev.
Proof. unfold run. now rewrite fold_left_app. Qed.

Lemma run_app w evs evs' : run w (evs ++ evs') = run (run w evs) evs'.
Proof. unfold run. now rewrite fold_left_app. Qed.

(** *** Every request is refreshed for and resent at most once *)

Lemma attempts_le w rid :
  attempts_ok w rid ->
  count (is_refresh_for rid) (trace w) <= 1
  /\ count (is_retry_of rid) (trace w) <= 1.
Proof.
  unfold attempts_ok.
  destruct (reqs w !! rid) as [rq|]; [|lia].
  destruct (phase rq); [destruct (_retry (cfg rq))| |]; lia.
Qed.

Lemma attempts_ok_frame w w' rid :
  reqs w' !! rid = reqs w !! rid ->
  count (is_refresh_for rid) (trace w') = count (is_refresh_for rid) (trace w) ->
  count (is_retry_of rid) (trace w') = count (is_retry_of rid) (trace w) ->
  attempts_ok w rid -> attempts_ok w' rid.
Proof. unfold attempts_ok. now intros -> -> ->. Qed.

Lemma known_below_next w rid rq :
  well_formed w -> reqs w !! rid = Some rq -> rid < next w.
Proof.
  intros [Hn _] Hrq. destruct (Nat.lt_ge_cases rid (next w)) as [|Hge]; [easy|].
  rewrite (Hn rid Hge) in Hrq. discriminate.
Qed.

Lemma wf_emit e w :
  (forall rid, is_refresh_for rid e = false) ->
  (forall rid, is_retry_of rid e = false) ->
  well_formed w -> well_formed (emit e w).
Proof.
  intros Hr Ht [Hn Ha]. split; [exact Hn|]. intros rid.
  apply (attempts_ok_frame w); [reflexivity| | |apply Ha];
    unfold emit; simpl; rewrite count_app; unfold count; simpl;
    rewrite ?Hr, ?Ht; simpl; lia.
Qed.

Lemma wf_with_store f w : well_formed w -> well_formed (with_store f w).
Proof. exact (fun H => H). Qed.

Lemma wf_with_auth f w : well_formed w -> well_formed (with_auth f w).
Proof. exact (fun H => H). Qed.

Lemma wf_do_setTokens a r w : well_formed w -> well_formed (do_setTokens a r w).
Proof. intros H. now apply wf_emit. Qed.

Lemma wf_do_clearTokens w : well_formed w -> well_formed (do_clearTokens w).
Proof. intros H. now apply wf_emit. Qed.

Lemma wf_do_onLogout w : well_formed w -> well_formed (do_onLogout w).
Proof.
  intros H. unfold do_onLogout. destruct (onLogout (store w)); [|exact H].
  now apply wf_emit.
Qed.

Lemma wf_axios_post ep body w :
  well_formed w -> well_formed (axios_post ep body None w).
Proof. intros H. apply wf_emit; [|easy|exact H]. intros rid. now destruct ep. Qed.

Lemma wf_continuation k out w :
  well_formed w -> well_formed (continuation k out w).
Proof.
  intros H. destruct k; simpl; [exact H| |].
  - apply wf_with_auth. destruct out.
    + now apply wf_with_auth.
    + now apply wf_with_auth, wf_do_clearTokens.
  - now apply wf_with_auth, wf_do_clearTokens.
Qed.

Lemma retry_preserved st c : _retry (request_interceptor st c) = _retry c.
Proof. unfold request_interceptor. now destruct (truthy (accessToken st)). Qed.

Lemma wf_api_call k ep w : well_formed w -> well_formed (api_call k ep w).
Proof.
  intros [Hn Ha]. split.
  - intros rid Hle. simpl in *. rewrite lookup_insert_ne by lia. apply Hn. lia.
  - intros rid. unfold attempts_ok, api_call, emit. simpl.
    rewrite !count_snoc. simpl.
    rewrite retry_preserved. simpl. rewrite andb_false_r, !Nat.add_0_r.
    destruct (decide (next w = rid)) as [<-|Hne].
    + rewrite lookup_insert_eq. simpl. rewrite retry_preserved. simpl.
      specialize (Ha (next w)). unfold attempts_ok in Ha.
      rewrite (Hn (next w)) in Ha by lia. exact Ha.
    + rewrite lookup_insert_ne by exact Hne.
      exact (Ha rid).
Qed.

Lemma wf_settle rid out w : well_formed w -> well_formed (settle rid out w).
Proof.
  intros Hw. unfold settle. destruct (reqs w !! rid) as [rq|] eqn:Hrq; [|exact Hw].
  apply wf_continuation, wf_emit; [easy|easy|].
  pose proof (known_below_next _ _ _ Hw Hrq) as Hlt.
  destruct Hw as [Hn Ha]. split.
  - intros rid' Hle. simpl in *. rewrite lookup_insert_ne by lia. now apply Hn.
  - intros rid'. destruct (decide (rid = rid')) as [<-|Hne].
    + unfold attempts_ok. simpl. rewrite lookup_insert_eq. simpl.
      apply attempts_le, Ha.
    + apply (attempts_ok_frame w); [|reflexivity|reflexivity|apply Ha].
      simpl. now rewrite lookup_insert_ne.
Qed.

Lemma wf_resume rid (r : Resumed) : well_formed r.1 -> well_formed (resume rid r).
Proof.
  intros H. unfold resume. destruct r.2; [now apply wf_settle | exact H].
Qed.

Lemma wf_on_rejected error w rq :
  reqs w !! config error = Some rq -> phase rq = OnWire ->
  well_formed w -> well_formed (on_rejected error w).1.
Proof.
  intros Hrq Hph Hw. unfold on_rejected. rewrite Hrq.
  destruct (is_401 (status error) && negb (_retry (cfg rq))
            && truthy (refreshToken (store w))) eqn:Hc; [|exact Hw].
  apply andb_prop in Hc as [Hc _]. apply andb_prop in Hc as [_ Hr].
  apply negb_true_iff in Hr.
  pose proof (known_below_next _ _ _ Hw Hrq) as Hlt.
  destruct Hw as [Hn Ha]. split.
  - intros rid Hle. simpl in *. rewrite lookup_insert_ne by lia. now apply Hn.
  - intros rid. unfold attempts_ok. simpl. rewrite !count_snoc. simpl.
    rewrite !Nat.add_0_r.
    destruct (decide (config error = rid)) as [<-|Hne].
    + rewrite lookup_insert_eq, Nat.eqb_refl. simpl.
      specialize (Ha (config error)). unfold attempts_ok in Ha.
      rewrite Hrq, Hph, Hr in Ha. simpl in Ha. lia.
    + rewrite lookup_insert_ne by exact Hne.
      apply Nat.eqb_neq in Hne. rewrite Hne, !Nat.add_0_r. exact (Ha rid).
Qed.

Lemma wf_refresh_resolved rid a r w :
  well_formed w -> well_formed (refresh_resolved rid a r w).1.
Proof.
  intros Hw. unfold refresh_resolved.
  destruct (reqs w !! rid) as [rq|] eqn:Hrq; [|exact Hw].
  destruct (phase rq) eqn:Hph; try exact Hw.
  pose proof (known_below_next _ _ _ Hw Hrq) as Hlt.
  destruct Hw as [Hn Ha]. split.
  - intros rid' Hle. simpl in *. rewrite lookup_insert_ne by lia. now apply Hn.
  - intros rid'. unfold attempts_ok. simpl. rewrite !count_snoc. simpl.
    rewrite retry_preserved. simpl. rewrite !Nat.add_0_r.
    destruct (decide (rid = rid')) as [<-|Hne].
    + rewrite lookup_insert_eq, Nat.eqb_refl. simpl. rewrite retry_preserved.
      simpl. specialize (Ha rid). unfold attempts_ok in Ha.
      rewrite Hrq, Hph in Ha. simpl in Ha. destruct Ha as (-> & -> & ->).
      simpl. lia.
    + rewrite lookup_insert_ne by exact Hne.
      apply Nat.eqb_neq in Hne. rewrite Hne. simpl. rewrite !Nat.add_0_r.
      exact (Ha rid').
Qed.

Lemma wf_refresh_rejected rid w :
  well_formed w -> well_formed (refresh_rejected rid w).1.
Proof.
  intros Hw. unfold refresh_rejected.
  destruct (reqs w !! rid) as [rq|]; [|exact Hw].
  destruct (phase rq); try exact Hw.
  now apply wf_do_onLogout, wf_do_clearTokens.
Qed.

Lemma wf_deliver rid st data w :
  well_formed w -> well_formed (deliver rid st data w).
Proof.
  intros Hw. unfold deliver.
  destruct (reqs w !! rid) as [rq|] eqn:Hrq; [|exact Hw].
  destruct (phase rq) eqn:Hph; try exact Hw.
  apply wf_resume. destruct (ok_status st); [exact Hw|].
  now apply (wf_on_rejected _ _ rq).
Qed.

Lemma wf_mount at_ rt_ w : well_formed w -> well_formed (mount at_ rt_ w).
Proof.
  intros Hw. unfold mount.
  match goal with |- context [hasTokens (store ?w2)] =>
    assert (well_formed w2) as Hw2
  end.
  { destruct (truthy_opt at_ && truthy_opt rt_).
    - now apply wf_do_setTokens, wf_with_store.
    - now apply wf_with_store. }
  match goal with |- context [if ?b then _ else _] => destruct b end.
  - now apply wf_api_call.
  - now apply wf_with_auth.
Qed.

Lemma wf_step w ev : well_formed w -> well_formed (step w ev).
Proof.
  intros Hw. destruct ev as [at_ rt_|ep| |body|body|a r u|rid st data|rid res];
    simpl.
  - now apply wf_mount.
  - now apply wf_api_call.
  - now apply wf_api_call.
  - now apply wf_axios_post.
  - now apply wf_axios_post.
  - now apply wf_with_auth, wf_do_setTokens.
  - now apply wf_deliver.
  - destruct res as [[a r]|]; apply wf_resume.
    + now apply wf_refresh_resolved.
    + now apply wf_refresh_rejected.
Qed.

Lemma wf_run w evs : well_formed w -> well_formed (run w evs).
Proof.
  revert w. induction evs as [|ev evs IH]; intros w Hw; [exact Hw|].
  apply IH, wf_step, Hw.
Qed.

Lemma wf_boot ls : well_formed (boot ls).
Proof. split; [intros rid _|intros rid]; now unfold attempts_ok. Qed.

(** C3.  In every run from page load, for every request: at most one refresh
    call is ever issued on its behalf and it is resent at most once.  In
    particular a request whose config already carries the retried flag is
    rejected with its error as it stands, whatever its status (a second 401
    included), with nothing sent and nothing changed. *)
Theorem at_most_one_refresh_and_retry (ls : Storage) (evs : list Event) :
  let w := run (boot ls) evs in
  (forall rid,
     count (is_refresh_for rid) (trace w) <= 1
     /\ count (is_retry_of rid) (trace w) <= 1)
  /\ (forall error rq,
        reqs w !! config error = Some rq -> _retry (cfg rq) = true ->
        on_rejected error w = (w, Some (Failed error)))
  /\ (forall rid rq data,
        reqs w !! rid = Some rq -> phase rq = OnWire ->
        _retry (cfg rq) = true -> caller rq = Plain ->
        trace (step w (Response rid unauthorized data))
        = (trace w ++ [Settle rid (Failed (mkError rid unauthorized))])%list).
Proof.
  intros w. split; [|split].
  - intros rid. apply attempts_le.
    now apply (wf_run (boot ls) evs (wf_boot ls)).
  - intros error rq Hrq Hr. unfold on_rejected. rewrite Hrq, Hr.
    now rewrite andb_false_r.
  - intros rid rq data Hrq Hph Hr Hk. simpl. unfold deliver.
    rewrite Hrq, Hph. simpl. unfold on_rejected. simpl.
    rewrite Hrq, Hr. simpl. unfold resume, settle. simpl.
    now rewrite Hrq, Hk.
Qed.

(** A 401 that persists after a successful refresh: the second one is
    final. *)
Lemma at_most_one_refresh_and_retry_witness :
  let evs := [Call (Path "/chat"); Response 0 unauthorized "";
              RefreshReply 0 (Some ("A2", "R2"))] in
  let w := run (boot stored_session) evs in
  let error := mkError 0 unauthorized in
  on_rejected error w = (w, Some (Failed error))
  /\ count is_refresh_post
       (trace (step w (Response 0 unauthorized ""))) = 1.
Proof.
  intros evs w error.
  destruct (at_most_one_refresh_and_retry stored_session evs)
    as (_ & Hrej & _).
  split.
  - exact (Hrej error
             (mkRequest (mkConfig (Path "/chat") (Some "Bearer A2") true)
                Plain OnWire) eq_refl eq_refl).
  - reflexivity.
Defined.

End Runs.

(** ** What a step adds to the trace *)

Section Extends.

Variable P : Effect -> Prop.
Hypothesis P_internal : forall e, is_network e = false -> P e.
Hypothesis P_post : forall ep body owner, P (AxiosPost (fresh ep) body owner).

Implicit Types (w : World) (rid : nat).

Lemma extends_refl w w' : trace w' = trace w -> extends P w w'.
Proof. intros H. exists []. now rewrite app_nil_r. Qed.

Lemma extends_trans w1 w2 w3 :
  extends P w1 w2 -> extends P w2 w3 -> extends P w1 w3.
Proof.
  intros (d1 & E1 & F1) (d2 & E2 & F2). exists (d1 ++ d2)%list. split.
  - now rewrite E2, E1, app_assoc.
  - now apply Forall_app.
Qed.

Lemma extends_emit e w w' :
  trace w' = trace w -> P e -> extends P w (emit e w').
Proof.
  intros E H. exists [e]. split; [simpl; now rewrite E | now constructor].
Qed.

Lemma extends_Forall (Q : Effect -> Prop) w w' :
  (forall e, P e -> Q e) ->
  Forall Q (trace w) -> extends P w w' -> Forall Q (trace w').
Proof.
  intros HPQ Hw (d & -> & Hd). apply Forall_app. split; [exact Hw|].
  now apply (Forall_impl _ _ _ Hd).
Qed.

Lemma extends_do_setTokens a r w : extends P w (do_setTokens a r w).
Proof. apply extends_emit; [reflexivity | now apply P_internal]. Qed.

Lemma extends_do_clearTokens w : extends P w (do_clearTokens w).
Proof. apply extends_emit; [reflexivity | now apply P_internal]. Qed.

Lemma extends_do_onLogout w : extends P w (do_onLogout w).
Proof.
  unfold do_onLogout. destruct (onLogout (store w)).
  - apply extends_emit; [reflexivity | now apply P_internal].
  - now apply extends_refl.
Qed.

Lemma extends_axios_post ep body owner w w' :
  trace w' = trace w -> extends P w (axios_post ep body owner w').
Proof. intros E. apply extends_emit; [exact E | apply P_post]. Qed.

Lemma extends_continuation k out w : extends P w (continuation k out w).
Proof.
  destruct k; simpl.
  - now apply extends_refl.
  - destruct out.
    + now apply extends_refl.
    + apply (extends_trans _ (do_clearTokens w)).
      * apply extends_do_clearTokens.
      * now apply extends_refl.
  - apply (extends_trans _ (do_clearTokens w)).
    + apply extends_do_clearTokens.
    + now apply extends_refl.
Qed.

Lemma extends_settle rid out w : extends P w (settle rid out w).
Proof.
  unfold settle. destruct (reqs w !! rid) as [rq|]; [|now apply extends_refl].
  eapply extends_trans; [|apply extends_continuation].
  apply extends_emit; [reflexivity | now apply P_internal].
Qed.

Lemma extends_resume rid (r : Resumed) w :
  extends P w r.1 -> extends P w (resume rid r).
Proof.
  intros H. unfold resume. destruct r.2; [|exact H].
  eapply extends_trans; [exact H | apply extends_settle].
Qed.

Lemma extends_on_rejected error w : extends P w (on_rejected error w).1.
Proof.
  unfold on_rejected. destruct (reqs w !! config error) as [rq|];
    [|now apply extends_refl].
  match goal with |- context [if ?b then _ else _] => destruct b end;
    [|now apply extends_refl].
  now apply extends_axios_post.
Qed.

Lemma extends_refresh_rejected rid w : extends P w (refresh_rejected rid w).1.
Proof.
  unfold refresh_rejected.
  destruct (reqs w !! rid) as [rq|]; [|now apply extends_refl].
  destruct (phase rq); try now apply extends_refl.
  eapply extends_trans; [apply extends_do_clearTokens|apply extends_do_onLogout].
Qed.

Lemma extends_deliver rid st data w : extends P w (deliver rid st data w).
Proof.
  unfold deliver. destruct (reqs w !! rid) as [rq|]; [|now apply extends_refl].
  destruct (phase rq); try now apply extends_refl.
  apply extends_resume. destruct (ok_status st).
  - now apply extends_refl.
  - apply extends_on_rejected.
Qed.

End Extends.

(** ** The refresh call goes around the interceptors *)

Section BareClient.

Implicit Types (w : World) (rid : nat).

Lemma bare_post_internal e : is_network e = false -> bare_post e.
Proof. now destruct e. Qed.

Lemma bare_post_fresh ep body owner : bare_post (AxiosPost (fresh ep) body owner).
Proof. reflexivity. Qed.

Lemma extends_bare_api_call k ep w : extends bare_post w (api_call k ep w).
Proof. eexists [_]. split; [reflexivity | now constructor]. Qed.

Lemma extends_bare_step w ev : extends bare_post w (step w ev).
Proof.
  pose proof bare_post_internal as Hi. pose proof bare_post_fresh as Hp.
  destruct ev as [at_ rt_|ep| |body|body|a r u|rid st data|rid res]; simpl.
  - unfold mount.
    match goal with |- context [hasTokens (store ?w2)] =>
      assert (extends bare_post w w2) as H2; [|set (x := w2) in *]
    end.
    { destruct (truthy_opt at_ && truthy_opt rt_).
      - now apply extends_emit.
      - now apply extends_refl. }
    destruct (hasTokens (store x)).
    + eapply extends_trans; [exact H2 | apply extends_bare_api_call].
    + exact H2.
  - apply extends_bare_api_call.
  - apply extends_bare_api_call.
  - now apply extends_axios_post.
  - now apply extends_axios_post.
  - now apply extends_emit.
  - now apply extends_deliver.
  - destruct res as [[a r]|]; cbv beta iota; apply extends_resume; auto.
    + unfold refresh_resolved.
      destruct (reqs w !! rid) as [rq|]; [|now apply extends_refl].
      destruct (phase rq); try now apply extends_refl.
      eexists [_; _]. split; [simpl; now rewrite <- app_assoc|].
      now repeat constructor.
    + now apply extends_refresh_rejected.
Qed.

Lemma bare_run w evs :
  Forall bare_post (trace w) -> Forall bare_post (trace (run w evs)).
Proof.
  revert w. induction evs as [|ev evs IH]; intros w Hw; [exact Hw|].
  apply IH. eapply extends_Forall; [|exact Hw|apply extends_bare_step]. auto.
Qed.

Lemma extends_internal_network w w' :
  extends (fun e => is_network e = false) w w' ->
  count is_network (trace w') = count is_network (trace w).
Proof.
  intros (d & -> & Hd). rewrite count_app.
  enough (count is_network d = 0) by lia.
  induction Hd as [|e d He _ IH]; [reflexivity|].
  unfold count in *. simpl. now rewrite He.
Qed.

(** C10.  In every run from page load: each call made on the global [axios]
    object (the refresh call, login, signup) leaves without an
    [Authorization] header, whatever the token store holds; the refresh call
    is such a call, carrying the refresh token in its body; and when a
    refresh call fails (a 401 included) the [catch] block sends nothing and
    suspends no handler, so no refresh can follow from it.  With C3 this
    bounds the refresh calls made for a request by one. *)
Theorem refresh_call_bypasses_interceptors (ls : Storage) (evs : list Event) :
  let w := run (boot ls) evs in
  (forall c body owner,
     In (AxiosPost c body owner) (trace w) -> Authorization c = None)
  /\ (forall error,
        (on_rejected error w).2 = None ->
        trace (on_rejected error w).1
        = (trace w ++ [AxiosPost (mkConfig AuthRefresh None false)
                         (refreshToken (store w)) (Some (config error))])%list)
  /\ (forall body,
        trace (login_submit body w)
        = (trace w ++ [AxiosPost (mkConfig AuthLogin None false) body None])%list
        /\ trace (signup_submit body w)
           = (trace w ++ [AxiosPost (mkConfig AuthSignup None false) body None])%list)
  /\ (forall rid,
        let w' := step w (RefreshReply rid None) in
        count is_network (trace w') = count is_network (trace w)
        /\ forall rid' rq' e,
             reqs w' !! rid' = Some rq' -> phase rq' = AwaitRefresh e ->
             reqs w !! rid' = Some rq')
  /\ (forall rid, count (is_refresh_for rid) (trace w) <= 1).
Proof.
  intros w. split; [|split; [|split; [|split]]].
  - intros c body owner Hin.
    assert (Forall bare_post (trace w)) as H by now apply bare_run.
    rewrite List.Forall_forall in H. exact (H _ Hin).
  - intros error. unfold on_rejected.
    destruct (reqs w !! config error) as [rq|]; [|discriminate].
    match goal with |- context [if ?b then _ else _] => destruct b end;
      [reflexivity | discriminate].
  - intros body. split; reflexivity.
  - intros rid w'. subst w'. simpl. split.
    + apply extends_internal_network, extends_resume; [auto|].
      now apply extends_refresh_rejected.
    + intros rid' rq' e. unfold refresh_rejected, resume.
      destruct (reqs w !! rid) as [rq|] eqn:Hrq; [|easy].
      destruct (phase rq) eqn:Hph; try easy. simpl.
      unfold settle. simpl.
      assert (reqs (do_onLogout (do_clearTokens w)) = reqs w) as Hsame.
      { unfold do_onLogout. now destruct (onLogout _). }
      rewrite Hsame, Hrq.
      assert (forall k out x, reqs (continuation k out x) = reqs x) as ->.
      { intros k out x. destruct k; [reflexivity| |reflexivity].
        now destruct out. }
      simpl. rewrite Hsame. destruct (decide (rid = rid')) as [<-|Hne].
      * rewrite lookup_insert_eq. intros H. inversion H. subst rq'. discriminate.
      * rewrite lookup_insert_ne by exact Hne. auto.
  - intros rid. apply attempts_le.
    now apply (wf_run (boot ls) evs (wf_boot ls)).
Qed.

(** A refresh call answered with a failure, with a token in the store. *)
Lemma refresh_call_bypasses_interceptors_witness :
  let evs := [Call (Path "/chat"); Response 0 unauthorized ""] in
  let w := run (boot stored_session) evs in
  In (AxiosPost (mkConfig AuthRefresh None false) "R1" (Some 0)) (trace w)
  /\ count is_network (trace (step w (RefreshReply 0 None))) = 2.
Proof.
  intros evs w.
  destruct (refresh_call_bypasses_interceptors stored_session evs)
    as (_ & _ & _ & Hfail & _).
  split.
  - right. left. reflexivity.
  - etransitivity; [exact (proj1 (Hfail 0)) | reflexivity].
Defined.

End BareClient.

(** ** Several requests failing at once *)

Section Concurrent.

Implicit Types (w : World) (rid : nat) (rids : list nat).

Lemma step_401_first_flight w rid rq data :
  reqs w !! rid = Some rq -> phase rq = OnWire -> _retry (cfg rq) = false ->
  truthy (refreshToken (store w)) = true ->
  step w (Response rid unauthorized data)
  = mkWorld (store w) (auth w)
      (<[rid:=mkRequest
                (mkConfig (endpoint (cfg rq)) (Authorization (cfg rq)) true)
                (caller rq) (AwaitRefresh (mkError rid unauthorized))]>
         (reqs w))
      (next w) (trace w ++ [refresh_post w rid]).
Proof.
  intros Hrq Hph Hr Ht. simpl. unfold deliver. rewrite Hrq, Hph. simpl.
  unfold on_rejected. simpl. now rewrite Hrq, Hr, Ht.
Qed.

Lemma run_401s rids : forall w,
  NoDup rids ->
  (forall rid, In rid rids -> first_flight w rid) ->
  truthy (refreshToken (store w)) = true ->
  let w' := run w (map (fun rid => Response rid unauthorized "") rids) in
  trace w' = (trace w ++ map (fun rid => refresh_post w rid) rids)%list
  /\ store w' = store w
  /\ (forall rid, In rid rids ->
        exists rq, reqs w' !! rid = Some rq
                   /\ phase rq = AwaitRefresh (mkError rid unauthorized)
                   /\ _retry (cfg rq) = true)
  /\ (forall rid, ~ In rid rids -> reqs w' !! rid = reqs w !! rid).
Proof.
  induction rids as [|rid0 rids IH]; intros w Hnd Hff Ht; simpl.
  - rewrite app_nil_r. repeat split; auto. intros rid [].
  - destruct (Hff rid0 (or_introl eq_refl)) as (rq0 & Hrq0 & Hph0 & Hr0).
    pose proof (step_401_first_flight w rid0 rq0 "" Hrq0 Hph0 Hr0 Ht) as Hstep.
    simpl in Hstep. rewrite Hstep. clear Hstep.
    match goal with |- context [run ?w1 _] => set (w1' := w1) end.
    apply NoDup_cons in Hnd as [Hnotin Hnd].
    assert (forall rid, rid <> rid0 -> reqs w1' !! rid = reqs w !! rid) as Hother.
    { intros rid Hne. subst w1'. simpl. now rewrite lookup_insert_ne. }
    destruct (IH w1' Hnd) as (Htr & Hst & Haw & Hfr).
    { intros rid Hin. destruct (Hff rid (or_intror Hin)) as (rq & Hrq & H).
      exists rq. split; [|exact H]. rewrite Hother; [exact Hrq|].
      intros ->. apply Hnotin. now apply list_elem_of_In. }
    { exact Ht. }
    split; [|split; [|split]].
    + rewrite Htr. subst w1'. simpl. now rewrite <- app_assoc.
    + exact Hst.
    + intros rid [<-|Hin]; [|now apply Haw].
      rewrite Hfr by (intros Hin; apply Hnotin; now apply list_elem_of_In).
      subst w1'. simpl. rewrite lookup_insert_eq. eexists. now repeat split.
    + intros rid Hnin. rewrite Hfr by (intros Hin; apply Hnin; now right).
      apply Hother. intros ->. apply Hnin. now left.
Qed.

Lemma count_refresh_posts w rids :
  count is_refresh_post (map (fun rid => refresh_post w rid) rids)
  = length rids.
Proof.
  induction rids as [|rid rids IH]; [reflexivity|].
  unfold count, refresh_post in *. simpl. now rewrite IH.
Qed.

Lemma step_refresh_resolved w rid rq e a r :
  reqs w !! rid = Some rq -> phase rq = AwaitRefresh e ->
  let w' := step w (RefreshReply rid (Some (a, r))) in
  getTokens (store w') = (a, r)
  /\ trace w'
     = (trace w ++
        [TokensSet a r;
         ApiSend rid (mkConfig (endpoint (cfg rq)) (Some (bearer a))
                        (_retry (cfg rq)))])%list.
Proof.
  intros Hrq Hph. simpl. unfold refresh_resolved. rewrite Hrq, Hph.
  unfold resume. simpl. split; [reflexivity|].
  unfold request_interceptor. simpl. rewrite <- app_assoc. simpl.
  now destruct (truthy a).
Qed.

Lemma step_refresh_resolved_eq w rid rq e a r :
  reqs w !! rid = Some rq -> phase rq = AwaitRefresh e ->
  let c := mkConfig (endpoint (cfg rq)) (Some (bearer a)) (_retry (cfg rq)) in
  step w (RefreshReply rid (Some (a, r)))
  = mkWorld (setTokens a r (store w)) (auth w)
      (<[rid:=mkRequest c (caller rq) OnWire]> (reqs w)) (next w)
      (trace w ++ [TokensSet a r; ApiSend rid c]).
Proof.
  intros Hrq Hph. simpl. unfold refresh_resolved. rewrite Hrq, Hph.
  unfold resume, do_setTokens, emit, with_req, with_store. simpl.
  unfold request_interceptor. simpl. rewrite <- app_assoc. simpl.
  now destruct (truthy a).
Qed.

Lemma retry_headers_app tr tr' :
  retry_headers (tr ++ tr') = (retry_headers tr ++ retry_headers tr')%list.
Proof. apply flat_map_app. Qed.

Lemma retry_headers_posts w rids :
  retry_headers (map (fun rid => refresh_post w rid) rids) = [].
Proof. induction rids as [|rid rids IH]; [reflexivity | exact IH]. Qed.

Lemma run_refresh_replies (replies : list (nat * (string * string))) :
  forall w,
  NoDup (map fst replies) ->
  (forall q, In q replies ->
     exists rq e, reqs w !! q.1 = Some rq /\ phase rq = AwaitRefresh e
                  /\ _retry (cfg rq) = true) ->
  retry_headers
    (trace (run w (map (fun q => RefreshReply q.1 (Some q.2)) replies)))
  = (retry_headers (trace w)
     ++ map (fun q => Some (bearer q.2.1)) replies)%list.
Proof.
  induction replies as [|[rid0 [a0 r0]] replies IH]; intros w Hnd Haw; simpl.
  - now rewrite app_nil_r.
  - destruct (Haw _ (or_introl eq_refl)) as (rq0 & e0 & Hrq0 & Hph0 & Hr0).
    simpl in Hrq0.
    pose proof (step_refresh_resolved_eq w rid0 rq0 e0 a0 r0 Hrq0 Hph0) as Hstep.
    simpl in Hstep. rewrite Hstep. clear Hstep.
    match goal with |- context [run ?w1 _] => set (w1' := w1) end.
    simpl in Hnd. apply NoDup_cons in Hnd as [Hnotin Hnd].
    rewrite (IH w1' Hnd).
    + subst w1'. simpl. rewrite retry_headers_app. simpl. rewrite Hr0.
      simpl. now rewrite <- app_assoc.
    + intros q Hin. destruct (Haw q (or_intror Hin)) as (rq & e & Hrq & H).
      exists rq, e. split; [|exact H]. subst w1'. simpl.
      rewrite lookup_insert_ne; [exact Hrq|].
      intros Heq. apply Hnotin, list_elem_of_In. rewrite Heq.
      now apply in_map.
Qed.

(** C1, as the code has it.  There is no shared refresh: of N requests on
    their first flight that each get a 401 while the store still holds a
    refresh token, every one starts a refresh call of its own, so N refresh
    calls reach the backend, all carrying the refresh token that was stored
    when the failures arrived; the store is not touched meanwhile.  When the
    refresh call of a request succeeds, the pair it returned is stored and
    that request is resent with the access token its own refresh call
    returned: as the answers come in, in any order, the retries carry the
    tokens of the respective answers. *)
Theorem every_401_starts_its_own_refresh w rids :
  NoDup rids ->
  (forall rid, In rid rids -> first_flight w rid) ->
  truthy (refreshToken (store w)) = true ->
  let w' := run w (map (fun rid => Response rid unauthorized "") rids) in
  trace w' = (trace w ++ map (fun rid => refresh_post w rid) rids)%list
  /\ count is_refresh_post (trace w')
     = count is_refresh_post (trace w) + length rids
  /\ store w' = store w
  /\ (forall rid, In rid rids ->
        exists rq, reqs w' !! rid = Some rq
                   /\ phase rq = AwaitRefresh (mkError rid unauthorized)
                   /\ _retry (cfg rq) = true)
  /\ (forall w2 rid rq e a r,
        reqs w2 !! rid = Some rq -> phase rq = AwaitRefresh e ->
        let w3 := step w2 (RefreshReply rid (Some (a, r))) in
        getTokens (store w3) = (a, r)
        /\ trace w3
           = (trace w2 ++
              [TokensSet a r;
               ApiSend rid (mkConfig (endpoint (cfg rq)) (Some (bearer a))
                              (_retry (cfg rq)))])%list)
  /\ (forall replies : list (nat * (string * string)),
        NoDup (map fst replies) ->
        (forall q, In q replies -> In q.1 rids) ->
        retry_headers
          (trace (run w' (map (fun q => RefreshReply q.1 (Some q.2)) replies)))
        = (retry_headers (trace w)
           ++ map (fun q => Some (bearer q.2.1)) replies)%list).
Proof.
  intros Hnd Hff Ht w'.
  destruct (run_401s rids w Hnd Hff Ht) as (Htr & Hst & Haw & _).
  fold w' in Htr, Hst, Haw.
  split; [exact Htr|]. split.
  { now rewrite Htr, count_app, count_refresh_posts. }
  split; [exact Hst|]. split; [exact Haw|]. split.
  { intros w2 rid rq e a r. apply step_refresh_resolved. }
  intros replies Hndr Hin.
  rewrite run_refresh_replies; [|exact Hndr|].
  - now rewrite Htr, retry_headers_app, retry_headers_posts, app_nil_r.
  - intros q Hq. destruct (Haw _ (Hin q Hq)) as (rq & Hrq & Hph & Hr).
    now exists rq, (mkError q.1 unauthorized).
Qed.

Lemma every_401_starts_its_own_refresh_witness :
  let w := run (boot stored_session)
             [Call (Path "/threads"); Call (Path "/profile")] in
  let w' := run w [Response 0 unauthorized ""; Response 1 unauthorized ""] in
  count is_refresh_post (trace w') = 2.
Proof.
  intros w w'.
  assert (NoDup [0; 1]) as Hnd.
  { apply NoDup_cons. split; [|apply NoDup_cons; split;
      [|apply NoDup_nil; exact I]].
    - intros H. apply list_elem_of_In in H. destruct H as [H|[]]. discriminate.
    - intros H. apply list_elem_of_In in H. destruct H. }
  assert (forall rid, In rid [0; 1] -> first_flight w rid) as Hff.
  { intros rid [<-|[<-|[]]]; eexists; (split; [reflexivity|]); now split. }
  exact (proj1 (proj2 (every_401_starts_its_own_refresh w [0; 1] Hnd Hff
                         eq_refl))).
Defined.

(** C1 fails as stated: two requests of one session fail together, and two
    refresh calls go out; both succeed, and the two retries carry different
    tokens. *)
Lemma concurrent_401s_refresh_twice :
  let w := run (boot stored_session)
             [Call (Path "/threads"); Call (Path "/profile");
              Response 0 unauthorized ""; Response 1 unauthorized "";
              RefreshReply 0 (Some ("A2", "R2"));
              RefreshReply 1 (Some ("A3", "R3"))] in
  count is_refresh_post (trace w) = 2
  /\ retry_headers (trace w) = [Some "Bearer A2"; Some "Bearer A3"]
  /\ ~ single_flight (trace w).
Proof.
  intros w. split; [reflexivity|]. split; [reflexivity|].
  intros [H _]. vm_compute in H. discriminate.
Qed.

Lemma step_refresh_rejected w rid e fn :
  awaiting w rid e -> onLogout (store w) = Some fn ->
  exists rq,
    reqs w !! rid = Some rq
    /\ step w (RefreshReply rid None)
       = mkWorld (clearTokens (store w)) (fn (auth w))
           (<[rid:=mkRequest (cfg rq) Plain Settled]> (reqs w)) (next w)
           (trace w ++
            [TokensCleared; LogoutHookRun; Settle rid (Failed e)]).
Proof.
  intros (rq & Hrq & Hph & Hk) Hfn. exists rq. split; [exact Hrq|].
  simpl. unfold refresh_rejected. rewrite Hrq, Hph.
  unfold resume, do_onLogout. simpl. rewrite Hfn.
  unfold settle. simpl. rewrite Hrq, Hk. simpl.
  unfold emit, with_req, with_auth, do_clearTokens, emit, with_store. simpl.
  now rewrite <- !app_assoc.
Qed.

Lemma run_failed_refreshes (pend : list (nat * AxiosError)) fn : forall w,
  NoDup (map fst pend) ->
  (forall rid e, In (rid, e) pend -> awaiting w rid e) ->
  onLogout (store w) = Some fn ->
  let w' := run w (map (fun p => RefreshReply p.1 None) pend) in
  trace w'
  = (trace w ++
     flat_map (fun p => [TokensCleared; LogoutHookRun; Settle p.1 (Failed p.2)])
       pend)%list
  /\ store w' = Nat.iter (length pend) clearTokens (store w)
  /\ auth w' = Nat.iter (length pend) fn (auth w).
Proof.
  induction pend as [|[rid0 e0] pend IH]; intros w Hnd Haw Hfn; simpl.
  - now rewrite app_nil_r.
  - destruct (step_refresh_rejected w rid0 e0 fn (Haw _ _ (or_introl eq_refl)) Hfn)
      as (rq0 & Hrq0 & Hstep).
    simpl in Hstep. rewrite Hstep. clear Hstep.
    match goal with |- context [run ?w1 _] => set (w1' := w1) end.
    simpl in Hnd. apply NoDup_cons in Hnd as [Hnotin Hnd].
    destruct (IH w1' Hnd) as (Htr & Hst & Hau).
    { intros rid e Hin. destruct (Haw rid e (or_intror Hin)) as (rq & Hrq & H).
      exists rq. split; [|exact H]. subst w1'. simpl.
      rewrite lookup_insert_ne; [exact Hrq|].
      intros <-. apply Hnotin, list_elem_of_In.
      change rid0 with (fst (rid0, e)). now apply in_map. }
    { exact Hfn. }
    split; [|split].
    + rewrite Htr. subst w1'. simpl. now rewrite <- app_assoc.
    + rewrite Hst. subst w1'. simpl. apply Nat.iter_swap.
    + rewrite Hau. subst w1'. simpl. apply Nat.iter_swap.
Qed.

Lemma count_failed_refreshes p (pend : list (nat * AxiosError)) :
  count p
    (flat_map (fun q => [TokensCleared; LogoutHookRun; Settle q.1 (Failed q.2)])
       pend)
  = length pend * ((if p TokensCleared then 1 else 0)
                   + (if p LogoutHookRun then 1 else 0))
    + count p (map (fun q => Settle q.1 (Failed q.2)) pend).
Proof.
  induction pend as [|q pend IH]; [reflexivity|].
  unfold count in *. simpl.
  destruct (p TokensCleared), (p LogoutHookRun), (p (Settle _ _)); simpl;
    rewrite IH; lia.
Qed.

Lemma count_settles p (pend : list (nat * AxiosError)) :
  (forall rid out, p (Settle rid out) = false) ->
  count p (map (fun q => Settle q.1 (Failed q.2)) pend) = 0.
Proof.
  intros Hp. induction pend as [|q pend IH]; [reflexivity|].
  unfold count in *. simpl. now rewrite Hp.
Qed.

Lemma iter_clearTokens_holds n st :
  0 < n -> holds (Nat.iter n clearTokens st) None.
Proof. destruct n; [lia|]. intros _. simpl. apply holds_clearTokens. Qed.

(** C2, as the code has it.  Every refresh call that fails is handled by the
    request that issued it: its [catch] block clears the token store and
    runs the registered logout handler once, then its promise is rejected
    with its own original error.  There is no waiting on a shared refresh,
    so when the refresh calls of N requests all fail, the store is cleared
    N times (and ends up empty) and the handler runs N times. *)
Theorem every_failed_refresh_logs_out w (pend : list (nat * AxiosError)) fn :
  NoDup (map fst pend) ->
  (forall rid e, In (rid, e) pend -> awaiting w rid e) ->
  onLogout (store w) = Some fn ->
  let w' := run w (map (fun p => RefreshReply p.1 None) pend) in
  trace w'
  = (trace w ++
     flat_map (fun p => [TokensCleared; LogoutHookRun; Settle p.1 (Failed p.2)])
       pend)%list
  /\ count is_clear (trace w') = count is_clear (trace w) + length pend
  /\ count is_hook (trace w') = count is_hook (trace w) + length pend
  /\ auth w' = Nat.iter (length pend) fn (auth w)
  /\ (pend <> [] -> holds (store w') None).
Proof.
  intros Hnd Haw Hfn w'.
  destruct (run_failed_refreshes pend fn w Hnd Haw Hfn) as (Htr & Hst & Hau).
  fold w' in Htr, Hst, Hau.
  split; [exact Htr|]. split; [|split; [|split; [exact Hau|]]].
  - rewrite Htr, count_app, count_failed_refreshes, count_settles by easy.
    simpl. lia.
  - rewrite Htr, count_app, count_failed_refreshes, count_settles by easy.
    simpl. lia.
  - intros Hne. rewrite Hst. apply iter_clearTokens_holds.
    destruct pend; [congruence | simpl; lia].
Qed.

Lemma every_failed_refresh_logs_out_witness :
  let w := run (boot stored_session)
             [Mount None None; Response 0 (Some 200%Z) "ada";
              Call (Path "/threads"); Call (Path "/profile");
              Response 1 unauthorized ""; Response 2 unauthorized ""] in
  let pend := [(1, mkError 1 unauthorized); (2, mkError 2 unauthorized)] in
  let w' := run w (map (fun p => RefreshReply p.1 None) pend) in
  count is_hook (trace w') = 2 /\ user (auth w') = None.
Proof.
  intros w pend w'.
  assert (NoDup (map fst pend)) as Hnd.
  { apply NoDup_cons. split; [|apply NoDup_cons; split;
      [|apply NoDup_nil; exact I]].
    - intros H. apply list_elem_of_In in H. destruct H as [H|[]]. discriminate.
    - intros H. apply list_elem_of_In in H. destruct H. }
  assert (forall rid e, In (rid, e) pend -> awaiting w rid e) as Haw.
  { intros rid e [[= <- <-]|[[= <- <-]|[]]];
      eexists; (split; [reflexivity|]); now split. }
  destruct (every_failed_refresh_logs_out w pend (setUser None) Hnd Haw eq_refl)
    as (_ & _ & Hh & Hau & _).
  split.
  - etransitivity; [exact Hh | reflexivity].
  - etransitivity; [exact (f_equal user Hau) | reflexivity].
Defined.

(** C2 fails as stated: two requests fail together, both refresh calls are
    refused, and the store is cleared twice and the logout handler runs
    twice. *)
Lemma concurrent_refresh_failures_log_out_twice :
  let w := run (boot stored_session)
             [Mount None None; Response 0 (Some 200%Z) "ada";
              Call (Path "/threads"); Call (Path "/profile");
              Response 1 unauthorized ""; Response 2 unauthorized "";
              RefreshReply 1 None; RefreshReply 2 None] in
  count is_refresh_post (trace w) = 2
  /\ count is_clear (trace w) = 2
  /\ count is_hook (trace w) = 2
  /\ ~ single_logout (trace w).
Proof.
  intros w. repeat (split; [reflexivity|]).
  intros [H _]. vm_compute in H. discriminate.
Qed.

End Concurrent.

(** ** Logout *)

Section Logout.

Implicit Types (w : World) (rid : nat).

Lemma unauthenticated_internal e : is_network e = false -> unauthenticated e.
Proof. now destruct e. Qed.

Lemma unauthenticated_fresh ep body owner :
  unauthenticated (AxiosPost (fresh ep) body owner).
Proof. reflexivity. Qed.

Lemma holds_None_tokens st :
  holds st None -> accessToken st = "" /\ refreshToken st = "".
Proof. intros (H & _). unfold getTokens in H. now inversion H. Qed.

Lemma reqs_continuation k out w : reqs (continuation k out w) = reqs w.
Proof. destruct k; [reflexivity| |reflexivity]. now destruct out. Qed.

Lemma holds_None_continuation k out w :
  holds (store w) None -> holds (store (continuation k out w)) None.
Proof.
  intros H. destruct k; simpl; [exact H| |apply holds_clearTokens].
  destruct out; simpl; [exact H | apply holds_clearTokens].
Qed.

Lemma refresh_pending_settle rid out w rid' :
  refresh_pending (settle rid out w) rid' = true ->
  refresh_pending w rid' = true.
Proof.
  unfold settle. destruct (reqs w !! rid) as [rq|] eqn:Hrq; [|trivial].
  unfold refresh_pending. rewrite reqs_continuation. simpl.
  destruct (decide (rid = rid')) as [<-|Hne].
  - rewrite lookup_insert_eq. discriminate.
  - now rewrite lookup_insert_ne by exact Hne.
Qed.

Lemma refresh_pending_api_call k ep w rid :
  refresh_pending (api_call k ep w) rid = true ->
  refresh_pending w rid = true.
Proof.
  unfold refresh_pending, api_call. simpl.
  destruct (decide (next w = rid)) as [<-|Hne].
  - rewrite lookup_insert_eq. discriminate.
  - now rewrite lookup_insert_ne by exact Hne.
Qed.

Lemma since_settle w0 rid out w :
  signed_out_since w0 w -> signed_out_since w0 (settle rid out w).
Proof.
  intros [Hh Hp]. split.
  - unfold settle. destruct (reqs w !! rid) as [rq|]; [|exact Hh].
    now apply holds_None_continuation.
  - intros rid' H. apply Hp. now apply (refresh_pending_settle rid out).
Qed.

Lemma since_api_call w0 k ep w :
  signed_out_since w0 w ->
  signed_out_since w0 (api_call k ep w)
  /\ extends unauthenticated w (api_call k ep w).
Proof.
  intros [Hh Hp]. destruct (holds_None_tokens _ Hh) as [Ha _].
  split; [split|].
  - exact Hh.
  - intros rid H. apply Hp. now apply (refresh_pending_api_call k ep).
  - unfold api_call, outgoing, request_interceptor. rewrite Ha. simpl.
    eexists [_]. split; [reflexivity|]. now repeat constructor.
Qed.

Lemma since_deliver w0 rid st data w :
  signed_out_since w0 w -> signed_out_since w0 (deliver rid st data w).
Proof.
  intros Hs. unfold deliver.
  destruct (reqs w !! rid) as [rq|] eqn:Hrq; [|exact Hs].
  destruct (phase rq); try exact Hs.
  destruct (ok_status st).
  - now apply since_settle.
  - unfold on_rejected. simpl. rewrite Hrq.
    destruct (holds_None_tokens _ (proj1 Hs)) as [_ ->].
    rewrite andb_false_r. now apply since_settle.
Qed.

Lemma since_refresh_rejected w0 rid w :
  signed_out_since w0 w ->
  signed_out_since w0 (resume rid (refresh_rejected rid w)).
Proof.
  intros Hs. unfold refresh_rejected.
  destruct (reqs w !! rid) as [rq|] eqn:Hrq; [|exact Hs].
  destruct (phase rq) as [|error|]; try exact Hs.
  change (signed_out_since w0
            (settle rid (Failed error) (do_onLogout (do_clearTokens w)))).
  apply since_settle.
  assert (store (do_onLogout (do_clearTokens w)) = clearTokens (store w)
          /\ reqs (do_onLogout (do_clearTokens w)) = reqs w) as [Hst Hrs].
  { unfold do_onLogout. now destruct (onLogout _). }
  split.
  - rewrite Hst. apply holds_clearTokens.
  - intros rid'. unfold refresh_pending at 1. rewrite Hrs. apply (proj2 Hs).
Qed.

Lemma since_step w0 w ev :
  signed_out_since w0 w ->
  installs ev = false -> late_success w0 ev = false ->
  signed_out_since w0 (step w ev) /\ extends unauthenticated w (step w ev).
Proof.
  pose proof unauthenticated_internal as Hi.
  pose proof unauthenticated_fresh as Hf.
  intros Hs Hev Hlate.
  destruct ev as [at_ rt_|ep| |body|body|a r u|rid st data|rid res]; simpl in *.
  - unfold mount. rewrite Hev. unfold hasTokens. simpl.
    destruct (holds_None_tokens _ (proj1 Hs)) as [-> _]. simpl.
    split; [exact Hs | now apply extends_refl].
  - now apply since_api_call.
  - now apply since_api_call.
  - split; [exact Hs | now apply extends_axios_post].
  - split; [exact Hs | now apply extends_axios_post].
  - discriminate.
  - split; [now apply since_deliver | now apply extends_deliver].
  - destruct res as [[a r]|]; cbv beta iota.
    + assert (refresh_pending w rid = false) as Hnp.
      { destruct (refresh_pending w rid) eqn:E; [|reflexivity].
        rewrite (proj2 Hs rid E) in Hlate. discriminate. }
      assert (refresh_resolved rid a r w = (w, None)) as ->.
      { unfold refresh_pending in Hnp. unfold refresh_resolved.
        destruct (reqs w !! rid) as [rq|]; [|reflexivity].
        now destruct (phase rq). }
      split; [exact Hs | now apply extends_refl].
    + split; [now apply since_refresh_rejected|].
      apply extends_resume; [exact Hi|]. now apply extends_refresh_rejected.
Qed.

Lemma since_run w0 evs : forall w,
  signed_out_since w0 w ->
  Forall (fun ev => installs ev = false /\ late_success w0 ev = false) evs ->
  signed_out_since w0 (run w evs) /\ extends unauthenticated w (run w evs).
Proof.
  induction evs as [|ev evs IH]; intros w Hs Hevs; simpl.
  - split; [exact Hs | now apply extends_refl].
  - apply Forall_cons in Hevs as [[Hev Hlate] Hevs].
    destruct (since_step w0 w ev Hs Hev Hlate) as [Hs1 He1].
    destruct (IH _ Hs1 Hevs) as [Hs2 He2].
    split; [exact Hs2 | eapply extends_trans; eassumption].
Qed.

(** C8, as the code has it.  When the call made by [logout()] settles,
    whatever its outcome and whatever else is in flight, the token store is
    empty in memory and in [localStorage] and [user] is null.  From then on
    the store stays empty and every request leaves without an
    [Authorization] header, for as long as no login, signup or redirect
    hands in a new pair and no refresh call that was in flight when logout
    completed is answered with success.  A refresh call in flight that
    fails, or is never answered, does no harm. *)
Theorem logout_signs_out w rid rq out :
  reqs w !! rid = Some rq ->
  caller rq = LogoutCall ->
  let w1 := settle rid out w in
  holds (store w1) None
  /\ getTokens (store w1) = ("", "")
  /\ user (auth w1) = None
  /\ forall evs : list Event,
       Forall (fun ev => installs ev = false /\ late_success w1 ev = false)
              evs ->
       holds (store (run w1 evs)) None
       /\ extends unauthenticated w1 (run w1 evs).
Proof.
  intros Hrq Hk w1.
  assert (holds (store w1) None /\ user (auth w1) = None) as [Hh Hu].
  { subst w1. unfold settle. rewrite Hrq, Hk. simpl.
    split; [apply holds_clearTokens | reflexivity]. }
  split; [exact Hh|]. split; [exact (proj1 Hh)|]. split; [exact Hu|].
  intros evs Hevs.
  assert (signed_out_since w1 w1) as Hs by (split; [exact Hh | trivial]).
  destruct (since_run w1 evs w1 Hs Hevs) as [[Hh2 _] He2].
  split; [exact Hh2 | exact He2].
Qed.

Lemma logout_signs_out_witness :
  let w := run (boot stored_session)
             [Mount None None; Response 0 (Some 200%Z) "ada";
              Call (Path "/threads"); Response 1 unauthorized "";
              LogoutClick] in
  let w1 := settle 2 (Fulfilled "") w in
  let evs := [RefreshReply 1 None; Call (Path "/profile")] in
  refresh_pending w1 1 = true
  /\ holds (store w1) None
  /\ user (auth w1) = None
  /\ holds (store (run w1 evs)) None
  /\ extends unauthenticated w1 (run w1 evs).
Proof.
  intros w w1 evs.
  destruct (logout_signs_out w 2
              (mkRequest (mkConfig AuthLogout (Some "Bearer A1") false)
                 LogoutCall OnWire)
              (Fulfilled "") eq_refl eq_refl)
    as (Hh & _ & Hu & Hrun).
  destruct (Hrun evs) as [Hh2 He2].
  { repeat constructor. }
  split; [reflexivity|]. split; [exact Hh|]. split; [exact Hu|].
  split; [exact Hh2 | exact He2].
Defined.

(** C8 fails as stated: a refresh call is under way when the user logs out;
    logout completes and empties the store; then the refresh call answers,
    its pair is stored, and the next request carries the new token although
    nobody has logged in. *)
Lemma stale_refresh_signs_back_in :
  let before := [Mount None None; Response 0 (Some 200%Z) "ada";
                 Call (Path "/threads"); Response 1 unauthorized "";
                 LogoutClick; Response 2 (Some 200%Z) ""] in
  let after := [RefreshReply 1 (Some ("A2", "R2")); Call (Path "/profile")] in
  let w1 := run (boot stored_session) before in
  let w2 := run w1 after in
  holds (store w1) None
  /\ Forall (fun ev => installs ev = false) after
  /\ getTokens (store w2) = ("A2", "R2")
  /\ In (ApiSend 3 (mkConfig (Path "/profile") (Some "Bearer A2") false))
        (trace w2)
  /\ ~ extends unauthenticated w1 w2.
Proof.
  intros before after w1 w2.
  assert (trace w2
          = (trace w1 ++
             [TokensSet "A2" "R2";
              ApiSend 1 (mkConfig (Path "/threads") (Some "Bearer A2") true);
              ApiSend 3 (mkConfig (Path "/profile") (Some "Bearer A2") false)])%list)
    as Htr by reflexivity.
  split; [now repeat split|]. split; [now repeat constructor|].
  split; [reflexivity|]. split.
  - rewrite Htr. apply in_or_app. right. simpl. auto.
  - intros (d & E & F). rewrite Htr in E. apply app_inv_head in E. subst d.
    inversion F as [|? ? _ F1]. inversion F1 as [|? ? H1 _]. discriminate.
Qed.

End Logout.

(** ** Invariants of the store along a run *)

Section StoreInvariant.

Variable P : Store -> Prop.
Hypothesis P_set : forall a r st, P st -> P (setTokens a r st).
Hypothesis P_clear : forall st, P st -> P (clearTokens st).
Hypothesis P_handler : forall st, P st -> P (setLogoutHandler (setUser None) st).

Implicit Types (w : World) (rid : nat).

Lemma inv_continuation k out w : P (store w) -> P (store (continuation k out w)).
Proof.
  intros H. destruct k; simpl; [exact H| |now apply P_clear].
  destruct out; simpl; [exact H | now apply P_clear].
Qed.

Lemma inv_settle rid out w : P (store w) -> P (store (settle rid out w)).
Proof.
  intros H. unfold settle. destruct (reqs w !! rid); [|exact H].
  now apply inv_continuation.
Qed.

Lemma inv_resume rid (r : Resumed) : P (store r.1) -> P (store (resume rid r)).
Proof.
  intros H. unfold resume. destruct r.2; [|exact H]. now apply inv_settle.
Qed.

Lemma inv_deliver rid st data w : P (store w) -> P (store (deliver rid st data w)).
Proof.
  intros H. unfold deliver. destruct (reqs w !! rid) as [rq|] eqn:Hrq; [|exact H].
  destruct (phase rq); try exact H.
  apply inv_resume. destruct (ok_status st); [exact H|].
  unfold on_rejected. simpl. rewrite Hrq.
  now match goal with |- context [if ?b then _ else _] => destruct b end.
Qed.

Lemma inv_step w ev : P (store w) -> P (store (step w ev)).
Proof.
  intros H.
  destruct ev as [at_ rt_|ep| |body|body|a r u|rid st data|rid res];
    simpl in *; try exact H.
  - unfold mount.
    destruct (truthy_opt at_ && truthy_opt rt_).
    + assert (P (setTokens (or_empty at_) (or_empty rt_)
                   (setLogoutHandler (setUser None) (store w)))) as Hc
        by now apply P_set, P_handler.
      now match goal with |- context [if ?b then _ else _] => destruct b end.
    + assert (P (setLogoutHandler (setUser None) (store w))) as Hc
        by now apply P_handler.
      now match goal with |- context [if ?b then _ else _] => destruct b end.
  - now apply P_set.
  - now apply inv_deliver.
  - destruct res as [[a r]|]; cbv beta iota; apply inv_resume.
    + unfold refresh_resolved. destruct (reqs w !! rid) as [rq|]; [|exact H].
      destruct (phase rq); try exact H. now apply P_set.
    + unfold refresh_rejected. destruct (reqs w !! rid) as [rq|]; [|exact H].
      destruct (phase rq); try exact H. cbn [fst].
      assert (store (do_onLogout (do_clearTokens w)) = clearTokens (store w))
        as ->; [|now apply P_clear].
      unfold do_onLogout. now destruct (onLogout _).
Qed.

Lemma inv_run evs : forall w, P (store w) -> P (store (run w evs)).
Proof.
  induction evs as [|ev evs IH]; intros w H; [exact H|].
  simpl. now apply IH, inv_step.
Qed.

End StoreInvariant.

(** ** The token store, further *)

Section StoreFurther.

Implicit Types (st : Store) (w : World).

Lemma or_empty_Some (s : string) : or_empty (Some s) = s.
Proof. now destruct s. Qed.

Lemma mirrored_setTokens a r st : mirrored (setTokens a r st).
Proof.
  unfold mirrored, load, setTokens, getTokens, getItem, setItem. simpl.
  rewrite lookup_insert_eq, lookup_insert_ne by discriminate.
  now rewrite lookup_insert_eq, !or_empty_Some.
Qed.

Lemma mirrored_clearTokens st : mirrored (clearTokens st).
Proof.
  unfold mirrored, load, clearTokens, getTokens, getItem, removeItem. simpl.
  rewrite lookup_delete_eq, lookup_delete_ne by discriminate.
  now rewrite lookup_delete_eq.
Qed.

(** X1.  A reload reads back what is held: after [setTokens a r] a fresh
    module initialisation from the same [localStorage] holds [(a, r)], after
    [clearTokens] it holds nothing, and at every moment of every run the
    tokens a reload would read are the tokens in memory.  The logout
    handler is not persisted. *)
Theorem reload_reads_back_tokens (ls : Storage) (evs : list Event) :
  mirrored (store (run (boot ls) evs))
  /\ (forall st a r, getTokens (load (localStorage (setTokens a r st))) = (a, r))
  /\ (forall st, getTokens (load (localStorage (clearTokens st))) = ("", ""))
  /\ onLogout (load (localStorage (store (run (boot ls) evs)))) = None.
Proof.
  split; [|split; [|split]].
  - apply (inv_run mirrored).
    + intros a r st _. apply mirrored_setTokens.
    + intros st _. apply mirrored_clearTokens.
    + intros st H. exact H.
    + reflexivity.
  - intros st a r. apply mirrored_setTokens.
  - intros st. apply mirrored_clearTokens.
  - reflexivity.
Qed.

Lemma storage_set_set (a r a' r' : string) (m : Storage) :
  setItem "ja_refresh" r (setItem "ja_access" a
    (setItem "ja_refresh" r' (setItem "ja_access" a' m)))
  = setItem "ja_refresh" r (setItem "ja_access" a m).
Proof.
  unfold setItem. apply map_eq. intros k.
  destruct (decide (k = "ja_refresh")) as [Hr|Hr];
    destruct (decide (k = "ja_access")) as [Ha|Ha];
    subst; try discriminate;
    repeat first
      [ rewrite lookup_insert_eq
      | rewrite lookup_insert_ne by congruence ];
    reflexivity.
Qed.

Lemma storage_set_remove (a r : string) (m : Storage) :
  setItem "ja_refresh" r (setItem "ja_access" a
    (removeItem "ja_refresh" (removeItem "ja_access" m)))
  = setItem "ja_refresh" r (setItem "ja_access" a m).
Proof.
  unfold setItem, removeItem. apply map_eq. intros k.
  destruct (decide (k = "ja_refresh")) as [Hr|Hr];
    destruct (decide (k = "ja_access")) as [Ha|Ha];
    subst; try discriminate;
    repeat first
      [ rewrite lookup_insert_eq
      | rewrite lookup_insert_ne by congruence
      | rewrite lookup_delete_ne by congruence ];
    reflexivity.
Qed.

Lemma storage_remove_set (a r : string) (m : Storage) :
  removeItem "ja_refresh" (removeItem "ja_access"
    (setItem "ja_refresh" r (setItem "ja_access" a m)))
  = removeItem "ja_refresh" (removeItem "ja_access" m).
Proof.
  unfold setItem, removeItem. apply map_eq. intros k.
  destruct (decide (k = "ja_refresh")) as [Hr|Hr];
    destruct (decide (k = "ja_access")) as [Ha|Ha];
    subst; try discriminate;
    repeat first
      [ rewrite lookup_delete_eq
      | rewrite lookup_delete_ne by congruence
      | rewrite lookup_insert_ne by congruence ];
    reflexivity.
Qed.

Lemma storage_remove_remove (m : Storage) :
  removeItem "ja_refresh" (removeItem "ja_access"
    (removeItem "ja_refresh" (removeItem "ja_access" m)))
  = removeItem "ja_refresh" (removeItem "ja_access" m).
Proof.
  unfold removeItem. apply map_eq. intros k.
  destruct (decide (k = "ja_refresh")) as [Hr|Hr];
    destruct (decide (k = "ja_access")) as [Ha|Ha];
    subst; try discriminate;
    repeat first
      [ rewrite lookup_delete_eq
      | rewrite lookup_delete_ne by congruence ];
    reflexivity.
Qed.

Lemma apply_op_twice st op1 op2 :
  apply_op (apply_op st op1) op2 = apply_op st op2.
Proof.
  destruct op1 as [a1 r1|], op2 as [a2 r2|]; simpl;
    unfold setTokens, clearTokens; simpl; f_equal.
  - apply storage_set_set.
  - apply storage_remove_set.
  - apply storage_set_remove.
  - apply storage_remove_remove.
Qed.

(** X2.  The last write wins, entirely: after any non-empty sequence of
    [setTokens] and [clearTokens] the whole store (both tokens, the
    registered handler, every key of [localStorage]) is what the last
    operation alone would have made of the initial store.  In particular
    [clearTokens] is idempotent and undoes any [setTokens], and a
    [setTokens] overwrites an earlier one without a trace. *)
Theorem last_store_write_wins st (ops : list StoreOp) (op : StoreOp) :
  run_ops st (ops ++ [op]) = apply_op st op
  /\ clearTokens (clearTokens st) = clearTokens st
  /\ (forall a r, clearTokens (setTokens a r st) = clearTokens st)
  /\ (forall a r a' r',
        setTokens a r (setTokens a' r' st) = setTokens a r st).
Proof.
  split; [|split; [|split]].
  - rewrite run_ops_snoc. revert st.
    induction ops as [|op1 ops IH]; intros st; [reflexivity|].
    simpl. change (fold_left apply_op ops (apply_op st op1))
      with (run_ops (apply_op st op1) ops).
    rewrite IH. apply apply_op_twice.
  - exact (apply_op_twice st OpClear OpClear).
  - intros a r. exact (apply_op_twice st (OpSet a r) OpClear).
  - intros a r a' r'. exact (apply_op_twice st (OpSet a' r') (OpSet a r)).
Qed.

(** X3.  The client owns two keys of [localStorage] and touches no other:
    in every run, any key other than [ja_access] and [ja_refresh] keeps the
    value it had when the page loaded. *)
Theorem other_storage_keys_untouched
    (ls : Storage) (evs : list Event) (k : string) :
  k <> "ja_access" -> k <> "ja_refresh" ->
  getItem k (localStorage (store (run (boot ls) evs))) = getItem k ls.
Proof.
  intros Ha Hr.
  apply (inv_run (fun st => getItem k (localStorage st) = getItem k ls)).
  - intros a r st H. unfold getItem, setTokens, setItem in *. simpl.
    now rewrite !lookup_insert_ne by congruence.
  - intros st H. unfold getItem, clearTokens, removeItem in *. simpl.
    now rewrite !lookup_delete_ne by congruence.
  - intros st H. exact H.
  - reflexivity.
Qed.

Lemma other_storage_keys_untouched_witness :
  let ls : Storage := <["theme":="dark"]> stored_session in
  getItem "theme"
    (localStorage
       (store (run (boot ls)
                 [Mount None None; LogoutClick; Response 1 (Some 200%Z) ""])))
  = Some "dark".
Proof.
  intros ls.
  etransitivity;
    [apply (other_storage_keys_untouched ls _ "theme"); discriminate
    |reflexivity].
Defined.

End StoreFurther.

(** ** The response interceptor, further *)

Section InterceptorFurther.

Implicit Types (w : World) (rid : nat) (error : AxiosError).


(** X5.  An expired access token is recovered from without the caller
    noticing: a request on its first flight gets a 401, its refresh call
    succeeds with [(a, r)], and the retry is answered.  Then the store
    holds [(a, r)] in memory and in [localStorage], the login state is
    untouched, one refresh call and one retry (carrying [Bearer a]) went
    out, and the caller's promise settles once, with the outcome of the
    retry: its data if it succeeded, its own error if it failed, and in
    that case there is no further refresh and no logout. *)
Theorem expired_token_recovered w rid rq a r st data :
  reqs w !! rid = Some rq ->
  phase rq = OnWire ->
  _retry (cfg rq) = false ->
  caller rq = Plain ->
  truthy (refreshToken (store w)) = true ->
  let w' := run w [Response rid unauthorized "";
                   RefreshReply rid (Some (a, r));
                   Response rid st data] in
  holds (store w') (Some (a, r))
  /\ auth w' = auth w
  /\ trace w'
     = (trace w ++
        [refresh_post w rid; TokensSet a r;
         ApiSend rid (mkConfig (endpoint (cfg rq)) (Some (bearer a)) true);
         Settle rid (if ok_status st then Fulfilled data
                     else Failed (mkError rid st))])%list.
Proof.
  intros Hrq Hph Hr Hk Ht w'. subst w'.
  change (run w [Response rid unauthorized ""; RefreshReply rid (Some (a, r));
                 Response rid st data])
    with (step (step (step w (Response rid unauthorized ""))
                  (RefreshReply rid (Some (a, r))))
            (Response rid st data)).
  rewrite (step_401_first_flight w rid rq "" Hrq Hph Hr Ht).
  match goal with |- context [step (step ?w1 _) _] => set (w1' := w1) end.
  assert (reqs w1' !! rid
          = Some (mkRequest
                    (mkConfig (endpoint (cfg rq)) (Authorization (cfg rq)) true)
                    (caller rq) (AwaitRefresh (mkError rid unauthorized))))
    as Hrq1 by (subst w1'; simpl; apply lookup_insert_eq).
  pose proof (step_refresh_resolved_eq w1' rid _ _ a r Hrq1 eq_refl) as H2.
  cbv zeta in H2. rewrite H2. clear H2. subst w1'. simpl.
  unfold deliver. simpl. rewrite lookup_insert_eq. simpl.
  destruct (ok_status st); unfold resume, on_fulfilled, on_rejected, settle;
    simpl; rewrite ?lookup_insert_eq; simpl;
    rewrite ?andb_false_r; simpl; rewrite ?lookup_insert_eq;
    simpl; rewrite Hk; simpl;
    (split; [apply holds_setTokens|]); (split; [reflexivity|]);
    now rewrite <- !app_assoc.
Qed.

Lemma expired_token_recovered_witness :
  let w := run (boot stored_session) [Call (Path "/threads")] in
  let w' := run w [Response 0 unauthorized "";
                   RefreshReply 0 (Some ("A2", "R2"));
                   Response 0 (Some 200%Z) "[]"] in
  holds (store w') (Some ("A2", "R2")).
Proof.
  intros w w'.
  exact (proj1 (expired_token_recovered w 0
                  (mkRequest (mkConfig (Path "/threads") (Some "Bearer A1") false)
                     Plain OnWire)
                  "A2" "R2" (Some 200%Z) "[]"
                  eq_refl eq_refl eq_refl eq_refl eq_refl)).
Defined.

End InterceptorFurther.

(** ** The session, from bootstrap to logout *)

Section Session.

Implicit Types (w : World) (rid : nat) (ls : Storage).

(** X6.  Tokens delivered on the address are installed only as a pair.
    With both parameters non-empty the mount effect stores them over
    whatever was persisted and at once asks the backend who the user is,
    with the delivered access token as bearer, while the page keeps
    loading.  With one parameter missing or empty the address is ignored
    altogether. *)
Theorem redirect_tokens_installed_as_pair ls (a r : string) :
  truthy a = true -> truthy r = true ->
  let w := mount (Some a) (Some r) (boot ls) in
  holds (store w) (Some (a, r))
  /\ onLogout (store w) = Some (setUser None)
  /\ auth w = mkAuth None true
  /\ trace w
     = [TokensSet a r; ApiSend 0 (mkConfig AuthMe (Some (bearer a)) false)]
  /\ reqs w !! 0
     = Some (mkRequest (mkConfig AuthMe (Some (bearer a)) false) MeCheck OnWire)
  /\ (forall w0 at_ rt_,
        truthy_opt at_ && truthy_opt rt_ = false ->
        mount at_ rt_ w0 = mount None None w0).
Proof.
  intros Ha Hr w. subst w. unfold mount. simpl. rewrite Ha, Hr. simpl.
  rewrite ?or_empty_Some. unfold hasTokens. simpl. rewrite ?Ha.
  unfold api_call, outgoing, request_interceptor. simpl. rewrite ?Ha. simpl.
  split; [apply holds_setTokens|]. repeat (split; [reflexivity|]).
  intros w0 at_ rt_ H. unfold mount. now rewrite H.
Qed.

Lemma redirect_tokens_installed_as_pair_witness :
  let w := mount (Some "A3") (Some "R3") (boot stored_session) in
  holds (store w) (Some ("A3", "R3"))
  /\ mount (Some "A3") (Some "") (boot ∅) = mount None None (boot ∅).
Proof.
  intros w.
  destruct (redirect_tokens_installed_as_pair stored_session "A3" "R3"
              eq_refl eq_refl) as (Hh & _ & _ & _ & _ & Hig).
  split; [exact Hh | exact (Hig (boot ∅) (Some "A3") (Some "") eq_refl)].
Defined.

(** X7.  A persisted access token is validated at startup: the mount effect
    sends [me] with it as bearer and the page keeps loading.  When that
    call settles the page stops loading; on success the user is the data
    returned and the tokens stay; on any failure (a server error or a lost
    connection as much as a rejected token) the tokens are wiped from
    memory and [localStorage] and nobody is logged in. *)
Theorem persisted_session_validated ls (at_ rt_ : option string) :
  truthy (accessToken (load ls)) = true ->
  truthy_opt at_ && truthy_opt rt_ = false ->
  let w := mount at_ rt_ (boot ls) in
  trace w
  = [ApiSend 0 (mkConfig AuthMe (Some (bearer (accessToken (load ls)))) false)]
  /\ auth w = mkAuth None true
  /\ (forall w2 rid rq out,
        reqs w2 !! rid = Some rq -> caller rq = MeCheck ->
        let w3 := settle rid out w2 in
        loading (auth w3) = false
        /\ match out with
           | Fulfilled data =>
               user (auth w3) = Some data /\ store w3 = store w2
           | Failed _ => logged_out w3
           end)
  /\ (forall st data,
        ok_status st = false -> is_401 st = false ->
        let w' := step w (Response 0 st data) in
        logged_out w' /\ loading (auth w') = false).
Proof.
  intros Ha Hp w.
  assert (w = api_call MeCheck AuthMe
                (with_store (setLogoutHandler (setUser None)) (boot ls)))
    as Hw.
  { subst w. unfold mount. rewrite Hp. unfold hasTokens. simpl.
    change (or_empty (getItem "ja_access" ls)) with (accessToken (load ls)).
    now rewrite Ha. }
  assert (forall w2 rid rq out,
            reqs w2 !! rid = Some rq -> caller rq = MeCheck ->
            loading (auth (settle rid out w2)) = false
            /\ match out with
               | Fulfilled data =>
                   user (auth (settle rid out w2)) = Some data
                   /\ store (settle rid out w2) = store w2
               | Failed _ => logged_out (settle rid out w2)
               end) as Hsettle.
  { intros w2 rid rq out Hrq Hk. unfold settle. rewrite Hrq, Hk.
    destruct out; simpl; (split; [reflexivity|]).
    - now split.
    - split; [apply holds_clearTokens | reflexivity]. }
  split; [|split; [|split]].
  - rewrite Hw. unfold api_call, outgoing, request_interceptor. simpl.
    change (or_empty (getItem "ja_access" ls)) with (accessToken (load ls)).
    now rewrite Ha.
  - now rewrite Hw.
  - exact Hsettle.
  - intros st data Hok H401 w'. subst w'.
    set (rq0 := mkRequest
                  (outgoing Instance
                     (setLogoutHandler (setUser None) (load ls)) (fresh AuthMe))
                  MeCheck OnWire).
    assert (reqs w !! 0 = Some rq0) as Hrq0.
    { rewrite Hw. simpl. apply lookup_insert_eq. }
    simpl. unfold deliver. rewrite Hrq0. simpl. rewrite Hok.
    unfold on_rejected. simpl. rewrite Hrq0, H401. simpl.
    unfold resume. simpl.
    destruct (Hsettle w 0 rq0 (Failed (mkError 0 st)) Hrq0 eq_refl)
      as [Hl Hlo].
    split; [exact Hlo | exact Hl].
Qed.

Lemma persisted_session_validated_witness :
  let w := mount None None (boot stored_session) in
  logged_out (step w (Response 0 None "")).
Proof.
  intros w.
  destruct (persisted_session_validated stored_session None None
              eq_refl eq_refl) as (_ & _ & _ & H).
  exact (proj1 (H None "" eq_refl eq_refl)).
Defined.

End Session.

Section SessionEnd.

Implicit Types (w : World) (rid : nat) (ls : Storage).

(** X8.  Submitting a login or signup form changes nothing in the session
    by itself; only a successful answer does: it stores the returned pair
    in memory and [localStorage] and sets the user, leaving requests in
    flight and the registered handler alone, and from then on a call on
    the [api] instance carries the returned access token as bearer. *)
Theorem login_installs_session w (a r u : string) :
  let w' := step w (AuthReply a r u) in
  holds (store w') (Some (a, r))
  /\ auth w' = mkAuth (Some u) (loading (auth w))
  /\ onLogout (store w') = onLogout (store w)
  /\ reqs w' = reqs w
  /\ trace w' = (trace w ++ [TokensSet a r])%list
  /\ (truthy a = true -> forall k ep,
        trace (api_call k ep w')
        = (trace w' ++
           [ApiSend (next w) (mkConfig ep (Some (bearer a)) false)])%list)
  /\ (forall body,
        store (step w (LoginSubmit body)) = store w
        /\ auth (step w (LoginSubmit body)) = auth w
        /\ store (step w (SignupSubmit body)) = store w
        /\ auth (step w (SignupSubmit body)) = auth w).
Proof.
  intros w'. subst w'. simpl.
  split; [apply holds_setTokens|]. repeat (split; [reflexivity|]).
  split; [|now intros body].
  intros Ha k ep. unfold api_call, outgoing, request_interceptor. simpl.
  now rewrite Ha.
Qed.

Lemma login_installs_session_witness :
  let w' := step (boot ∅) (AuthReply "A1" "R1" "ada") in
  trace (api_call Plain (Path "/profile") w')
  = [TokensSet "A1" "R1";
     ApiSend 0 (mkConfig (Path "/profile") (Some "Bearer A1") false)].
Proof.
  intros w'.
  destruct (login_installs_session (boot ∅) "A1" "R1" "ada")
    as (_ & _ & _ & _ & _ & H & _).
  exact (H eq_refl Plain (Path "/profile")).
Defined.

Lemma logout_on_wire w :
  reqs (step w LogoutClick) !! next w
  = Some (mkRequest (outgoing Instance (store w) (fresh AuthLogout))
            LogoutCall OnWire)
  /\ store (step w LogoutClick) = store w.
Proof. split; [apply lookup_insert_eq | reflexivity]. Qed.

Lemma logged_out_settle_logout w rid rq out :
  reqs w !! rid = Some rq -> caller rq = LogoutCall ->
  logged_out (settle rid out w).
Proof.
  intros Hrq Hk. unfold settle. rewrite Hrq, Hk. simpl.
  split; [apply holds_clearTokens | reflexivity].
Qed.

(** X9.  [logout()] ends logged out however its call is answered.  If the
    answer is a success, any failure that starts no refresh (anything but a
    401, or a 401 with no refresh token stored), a 401 followed by a failed
    refresh, or a 401 followed by a successful refresh and then any answer
    to the retry: once the call has settled, the token store is empty in
    memory and in [localStorage] and the user is null.  A pair rotated in
    on the way is wiped as well. *)
Theorem logout_always_clears w :
  let rid := next w in
  let w1 := step w LogoutClick in
  (forall st data,
     ok_status st = true \/ is_401 st = false
     \/ truthy (refreshToken (store w)) = false ->
     logged_out (run w1 [Response rid st data]))
  /\ (truthy (refreshToken (store w)) = true ->
      (forall d,
         logged_out (run w1 [Response rid unauthorized d;
                             RefreshReply rid None]))
      /\ (forall d a r st data,
            logged_out (run w1 [Response rid unauthorized d;
                                RefreshReply rid (Some (a, r));
                                Response rid st data]))).
Proof.
  intros rid w1.
  destruct (logout_on_wire w) as [Hrq1 Hst1]. fold rid w1 in Hrq1, Hst1.
  set (rq1 := mkRequest (outgoing Instance (store w) (fresh AuthLogout))
                LogoutCall OnWire) in *.
  assert (_retry (cfg rq1) = false) as Hr1.
  { subst rq1. simpl. apply retry_preserved. }
  clearbody w1 rid.
  split.
  - intros st data Hcase. simpl. unfold deliver. rewrite Hrq1. simpl.
    destruct (ok_status st) eqn:Hok.
    + unfold resume. simpl. now apply (logged_out_settle_logout _ _ rq1).
    + assert (on_rejected (mkError rid st) w1
              = (w1, Some (Failed (mkError rid st)))) as ->.
      { unfold on_rejected. simpl. rewrite Hrq1, Hst1.
        destruct Hcase as [H|[H|H]]; [discriminate| |];
          rewrite H; now rewrite ?andb_false_r. }
      unfold resume. simpl. now apply (logged_out_settle_logout _ _ rq1).
  - intros Ht.
    assert (truthy (refreshToken (store w1)) = true) as Ht1
      by now rewrite Hst1.
    pose proof (step_401_first_flight w1 rid rq1) as H401.
    split.
    + intros d.
      change (logged_out (step (step w1 (Response rid unauthorized d))
                            (RefreshReply rid None))).
      rewrite (H401 d Hrq1 eq_refl Hr1 Ht1).
      simpl. unfold refresh_rejected. simpl. rewrite lookup_insert_eq. simpl.
      unfold resume. simpl.
      apply (logged_out_settle_logout _ _
               (mkRequest (mkConfig (endpoint (cfg rq1))
                             (Authorization (cfg rq1)) true)
                  LogoutCall (AwaitRefresh (mkError rid unauthorized))));
        [|reflexivity].
      unfold do_onLogout. simpl.
      destruct (onLogout (store w1)); simpl; apply lookup_insert_eq.
    + intros d a r st data.
      change (logged_out
                (step (step (step w1 (Response rid unauthorized d))
                         (RefreshReply rid (Some (a, r))))
                   (Response rid st data))).
      rewrite (H401 d Hrq1 eq_refl Hr1 Ht1).
      match goal with |- context [step (step ?x _) _] => set (w2 := x) end.
      assert (reqs w2 !! rid
              = Some (mkRequest (mkConfig (endpoint (cfg rq1))
                                   (Authorization (cfg rq1)) true)
                        LogoutCall
                        (AwaitRefresh (mkError rid unauthorized)))) as Hrq2
        by (subst w2; simpl; apply lookup_insert_eq).
      pose proof (step_refresh_resolved_eq w2 rid _ _ a r Hrq2 eq_refl) as H3.
      cbv zeta in H3. rewrite H3. clear H3.
      match goal with |- context [step ?x _] => set (w3 := x) end.
      set (rq3 := mkRequest (mkConfig (endpoint (cfg rq1)) (Some (bearer a)) true)
                    LogoutCall OnWire).
      assert (reqs w3 !! rid = Some rq3) as Hrq3
        by (subst w3; simpl; apply lookup_insert_eq).
      clearbody w3.
      simpl. unfold deliver. rewrite Hrq3. simpl.
      destruct (ok_status st).
      * unfold resume. simpl. now apply (logged_out_settle_logout _ _ rq3).
      * unfold on_rejected. simpl. rewrite Hrq3. simpl.
        rewrite andb_false_r. simpl. unfold resume. simpl.
        now apply (logged_out_settle_logout _ _ rq3).
Qed.

Lemma logout_always_clears_witness :
  let w := run (boot stored_session)
             [Mount None None; Response 0 (Some 200%Z) "ada"] in
  logged_out (run (step w LogoutClick)
                [Response 1 unauthorized "";
                 RefreshReply 1 (Some ("A2", "R2"));
                 Response 1 None ""]).
Proof.
  intros w.
  destruct (logout_always_clears w) as [_ H].
  destruct (H eq_refl) as [_ H2].
  exact (H2 "" "A2" "R2" None "").
Defined.

(** X10.  The mount effect registers [() => setUser(null)] as the logout
    handler, and nothing ever replaces or removes it: in every run that
    begins with the mount it is the registered handler at every moment.
    So whenever, in such a run, the refresh call of a page request fails,
    the user is set to null and the store is emptied, and the page's
    loading flag is left as it was. *)
Theorem logout_handler_stays_registered
    ls (at_ rt_ : option string) (evs : list Event) :
  let w := run (boot ls) (Mount at_ rt_ :: evs) in
  onLogout (store w) = Some (setUser None)
  /\ (forall rid e,
        awaiting w rid e ->
        let w' := step w (RefreshReply rid None) in
        logged_out w' /\ loading (auth w') = loading (auth w)).
Proof.
  intros w.
  assert (onLogout (store w) = Some (setUser None)) as Hh.
  { subst w. simpl.
    apply (inv_run (fun st => onLogout st = Some (setUser None))); auto.
    unfold mount.
    assert (forall w0 : World,
              onLogout (store w0) = Some (setUser None) ->
              onLogout (store (if hasTokens (store w0)
                               then api_call MeCheck AuthMe w0
                               else with_auth (setLoading false) w0))
              = Some (setUser None)) as Hif.
    { intros w0 H0. now destruct (hasTokens (store w0)). }
    destruct (truthy_opt at_ && truthy_opt rt_); now apply Hif. }
  split; [exact Hh|].
  intros rid e Haw w'. subst w'.
  destruct (step_refresh_rejected w rid e (setUser None) Haw Hh)
    as (rq & _ & ->).
  simpl. split; [|reflexivity].
  split; [apply holds_clearTokens | reflexivity].
Qed.

Lemma logout_handler_stays_registered_witness :
  let w := run (boot stored_session)
             [Mount None None; Response 0 (Some 200%Z) "ada";
              Call (Path "/threads"); Response 1 unauthorized ""] in
  user (auth w) = Some "ada"
  /\ logged_out (step w (RefreshReply 1 None)).
Proof.
  intros w. split; [reflexivity|].
  destruct (logout_handler_stays_registered stored_session None None
              [Response 0 (Some 200%Z) "ada"; Call (Path "/threads");
               Response 1 unauthorized ""]) as [_ H].
  refine (proj1 (H 1 (mkError 1 unauthorized) _)).
  eexists. split; [reflexivity|]. now split.
Defined.

End SessionEnd.

(** ** The dashboard's thread list *)

Section DashboardThreads.

Import Dashboard.

Implicit Types (s : State) (t : Thread) (tid : nat).

(** X11.  A successful delete removes from the sidebar every thread with
    that id and nothing else, keeping the others in their order.  The open
    conversation is closed (no active thread, no messages, chat remounted)
    exactly when the deleted thread was the active one when the deletion
    was asked for, whatever has become active since; the page shown does
    not change.  A failed delete changes nothing. *)
Theorem delete_removes_only_that_thread (captured : option nat) tid s :
  let s' := deleteThread captured tid true s in
  (forall t, t ∈ threads s' <-> t ∈ threads s /\ id t <> tid)
  /\ threads s' `sublist_of` threads s
  /\ activePage s' = activePage s
  /\ (captured = Some tid ->
      activeThreadId s' = None /\ loadedMessages s' = []
      /\ chatKey s' = S (chatKey s))
  /\ (captured <> Some tid ->
      activeThreadId s' = activeThreadId s
      /\ loadedMessages s' = loadedMessages s
      /\ chatKey s' = chatKey s)
  /\ deleteThread captured tid false s = s.
Proof.
  intros s'. subst s'. unfold deleteThread.
  destruct (decide (captured = Some tid)) as [Hc|Hc]; simpl.
  - split; [intros t; rewrite list_elem_of_filter; tauto|].
    split; [apply sublist_filter|]. split; [reflexivity|].
    split; [now intros _|]. split; [now intros H|reflexivity].
  - split; [intros t; rewrite list_elem_of_filter; tauto|].
    split; [apply sublist_filter|]. split; [reflexivity|].
    split; [now intros H|]. split; [now intros _|reflexivity].
Qed.

Lemma delete_removes_only_that_thread_witness :
  let s := mkState false "chat"
             [mkThread 1 "Resume" ""; mkThread 2 "Interview" "";
              mkThread 3 "Offer" ""]
             (Some 3) [] 0 in
  let s' := deleteThread (Some 2) 2 true s in
  activeThreadId s' = None /\ chatKey s' = 1.
Proof.
  intros s s'.
  destruct (delete_removes_only_that_thread (Some 2) 2 s)
    as (_ & _ & _ & H & _).
  destruct (H eq_refl) as (Ha & _ & Hk).
  split; [exact Ha | exact Hk].
Defined.

Lemma rename_map_id tid newTitle (l : list Thread) :
  map id (map (fun t => if decide (id t = tid)
                        then mkThread (id t) newTitle (other t) else t) l)
  = map id l.
Proof.
  induction l as [|t l IH]; [reflexivity|]. simpl. rewrite IH.
  now destruct (decide (id t = tid)).
Qed.

(** X12.  A successful rename keeps the threads, their ids and their order:
    a thread with the given id gets the new title and keeps its other
    fields, every other thread is the same object as before; the active
    thread, the loaded messages and the chat mount are not touched.
    Renaming again overrides the earlier title; a failed rename changes
    nothing. *)
Theorem rename_changes_titles_only tid (newTitle : string) s :
  let s' := renameThread tid newTitle true s in
  length (threads s') = length (threads s)
  /\ map id (threads s') = map id (threads s)
  /\ (forall i t, threads s !! i = Some t ->
        threads s' !! i
        = Some (if decide (id t = tid)
                then mkThread tid newTitle (other t) else t))
  /\ activeThreadId s' = activeThreadId s
  /\ loadedMessages s' = loadedMessages s
  /\ chatKey s' = chatKey s
  /\ activePage s' = activePage s
  /\ (forall title2,
        renameThread tid title2 true s' = renameThread tid title2 true s)
  /\ renameThread tid newTitle false s = s.
Proof.
  intros s'. subst s'. unfold renameThread, setThreads. simpl.
  split; [apply length_map|]. split; [apply rename_map_id|].
  split.
  { intros i t Hi. rewrite list_lookup_fmap, Hi. simpl.
    now destruct (decide (id t = tid)) as [<-|]. }
  repeat (split; [reflexivity|]).
  split; [|reflexivity].
  intros title2. f_equal. rewrite map_map. apply map_ext. intros t.
  destruct (decide (id t = tid)) as [Ht|Ht]; simpl.
  - now destruct (decide (id t = tid)).
  - now destruct (decide (id t = tid)).
Qed.

(** X13.  Asking for the thread that is already active does nothing and
    calls nothing.  Asking for another one calls the backend, and whatever
    the answer, that thread becomes the active one, the chat page is shown
    and the chat is remounted; its messages are those returned, reduced to
    role, content and attachments in the same order, or none at all when
    the call failed or returned no list. *)
Theorem select_thread_switches (captured : option nat) tid s :
  (captured = Some tid ->
   selectThread_calls captured tid = false
   /\ forall reply, selectThread captured tid reply s = s)
  /\ (captured <> Some tid ->
      selectThread_calls captured tid = true
      /\ forall reply,
           let s' := selectThread captured tid reply s in
           activeThreadId s' = Some tid
           /\ activePage s' = "chat"
           /\ chatKey s' = S (chatKey s)
           /\ threads s' = threads s
           /\ loadedMessages s'
              = match reply with
                | Some (Some ms) => map view ms
                | _ => []
                end
           /\ length (loadedMessages s')
              = match reply with
                | Some (Some ms) => length ms
                | _ => 0
                end).
Proof.
  unfold selectThread, selectThread_calls. split; intros Hc.
  - destruct (decide (captured = Some tid)); [|contradiction]. now split.
  - destruct (decide (captured = Some tid)); [contradiction|].
    split; [reflexivity|]. intros [[ms|]|]; simpl;
      repeat (split; [reflexivity|]); try reflexivity.
    apply length_map.
Qed.

Lemma select_thread_switches_witness :
  let s := mkState false "profile" [mkThread 7 "Offer" ""] (Some 7) [] 4 in
  selectThread (Some 7) 7 None s = s
  /\ activePage (selectThread (Some 7) 9 None s) = "chat".
Proof.
  intros s.
  destruct (select_thread_switches (Some 7) 7 s) as [H1 _].
  destruct (select_thread_switches (Some 7) 9 s) as [_ H2].
  split.
  - exact (proj2 (H1 eq_refl) None).
  - destruct (H2 ltac:(discriminate)) as [_ H]. exact (proj1 (proj2 (H None))).
Defined.

(** X14.  For each page name the application navigates to ("chat",
    "profile", "resume" from the sidebar, "profile" and "settings" from the
    user menu), the title in the top bar names the page that is rendered:
    "Profile" with the profile page, "Resumes" with the resumes page, and
    "Chat" with the chat page, which is also what "settings" shows. *)
Theorem title_names_rendered_page s :
  In (activePage s) ["chat"; "profile"; "resume"; "settings"] ->
  page_title s
  = match renderPage s with
    | ProfilePage => "Profile"
    | ResumesPage => "Resumes"
    | ChatPage => "Chat"
    end
  /\ (renderPage s = ChatPage <->
      activePage s = "chat" \/ activePage s = "settings").
Proof.
  unfold page_title, renderPage.
  intros [H|[H|[H|[H|[]]]]]; rewrite <- H; split; try reflexivity;
    (split; [intros E; try discriminate E; auto | intros [E|E]; try discriminate E; reflexivity]).
Qed.

Lemma title_names_rendered_page_witness :
  let s := navigate "settings" initial in
  page_title s = "Chat" /\ renderPage s = ChatPage.
Proof.
  intros s.
  destruct (title_names_rendered_page s) as [Ht Hp].
  { right. right. right. left. reflexivity. }
  split; [exact Ht | apply Hp; right; reflexivity].
Defined.

End DashboardThreads.

(** ** Editing the lists of the profile *)

Section ProfileLists.

Import Profile.

Implicit Types (p : State) (arr : list Slot) (it : Item) (key : string).

Lemma dense_cons_inv x arr :
  dense (x :: arr) -> (exists it, x = Obj it) /\ dense arr.
Proof. intros H. now apply Forall_cons in H. Qed.

Lemma copy_dense arr : dense arr -> copy arr = arr.
Proof.
  induction arr as [|x arr IH]; intros H; [reflexivity|].
  apply dense_cons_inv in H as [[it ->] H]. simpl. now rewrite IH.
Qed.

Lemma filter_from_past from i arr :
  dense arr -> i < from -> filter_from from i arr = arr.
Proof.
  revert from. induction arr as [|x arr IH]; intros from H Hlt; [reflexivity|].
  apply dense_cons_inv in H as [[it ->] H]. simpl.
  destruct (Nat.eqb_spec from i) as [->|_]; [lia|].
  rewrite IH; [reflexivity | exact H | lia].
Qed.

Lemma filter_from_dense from i arr :
  dense arr -> filter_from from (from + i) arr = delete i arr.
Proof.
  revert from i.
  induction arr as [|x arr IH]; intros from i H; [now destruct i|].
  apply dense_cons_inv in H as [[it ->] H]. simpl. destruct i as [|i].
  - rewrite Nat.add_0_r, Nat.eqb_refl. simpl.
    apply filter_from_past; [exact H | lia].
  - destruct (Nat.eqb_spec from (from + S i)) as [Heq|_]; [lia|].
    simpl. f_equal. rewrite <- (IH (S from) i H). f_equal. lia.
Qed.

Lemma delete_past_end (i : nat) arr : length arr <= i -> delete i arr = arr.
Proof.
  revert i. induction arr as [|x arr IH]; intros i Hle; [now destruct i|].
  destruct i as [|i]; simpl in *; [lia|]. f_equal. apply IH. lia.
Qed.

Lemma delete_last_appended arr (x : Slot) :
  delete (length arr) (arr ++ [x])%list = arr.
Proof. induction arr as [|y arr IH]; [reflexivity|]. simpl. now rewrite IH. Qed.

Lemma sections_setSection key arr p :
  sections (setSection key arr p) !! key = Some arr
  /\ personal (setSection key arr p) = personal p
  /\ forall k, k <> key ->
       sections (setSection key arr p) !! k = sections p !! k.
Proof.
  simpl. split; [apply lookup_insert_eq|]. split; [reflexivity|].
  intros k Hk. now rewrite lookup_insert_ne.
Qed.

(** X15.  Removing item [i] of a section takes out exactly that item: the
    items before it stay where they are, those after it move up by one,
    an index past the end removes nothing; the personal data and the
    other sections are untouched.  Removing the item that [addItem] has
    just appended gives back the list as it was.  On a section the
    profile does not have, the callback throws. *)
Theorem remove_item_takes_out_one key (i : nat) arr p :
  sections p !! key = Some arr ->
  dense arr ->
  (exists p',
     removeItem key i p = Some p'
     /\ sections p' !! key = Some (delete i arr)
     /\ personal p' = personal p
     /\ (forall k, k <> key -> sections p' !! k = sections p !! k)
     /\ (forall j, j < i -> delete i arr !! j = arr !! j)
     /\ (forall j, i <= j -> delete i arr !! j = arr !! S j)
     /\ (length arr <= i -> delete i arr = arr))
  /\ (forall factory,
        exists p',
          removeItem key (length arr) (addItem key factory p) = Some p'
          /\ sections p' !! key = Some arr
          /\ personal p' = personal p)
  /\ (forall k, sections p !! k = None -> removeItem k i p = None).
Proof.
  intros Hs Hd. split; [|split].
  - unfold removeItem. rewrite Hs. eexists. split; [reflexivity|].
    destruct (sections_setSection key (filter_from 0 i arr) p)
      as (H1 & H2 & H3).
    pose proof (filter_from_dense 0 i arr Hd) as Hf. simpl in Hf.
    rewrite Hf in *.
    split; [exact H1|]. split; [exact H2|]. split; [exact H3|].
    split; [intros j Hj; now apply list_lookup_delete_lt|].
    split; [intros j Hj; now apply list_lookup_delete_ge|].
    intros Hle. now apply delete_past_end.
  - intros factory. unfold removeItem, addItem. simpl.
    rewrite lookup_insert_eq, Hs. simpl. rewrite (copy_dense arr Hd).
    eexists. split; [reflexivity|]. simpl. rewrite lookup_insert_eq.
    split; [|reflexivity]. f_equal.
    assert (dense (arr ++ [Obj factory])%list) as Hd'.
    { apply Forall_app. split; [exact Hd|]. repeat constructor. now eexists. }
    pose proof (filter_from_dense 0 (length arr) _ Hd') as Hf. simpl in Hf.
    rewrite Hf. apply delete_last_appended.
  - intros k Hk. unfold removeItem. now rewrite Hk.
Qed.

Lemma remove_item_takes_out_one_witness :
  let arr := [Obj emptyEducation; Obj emptyLeadership] in
  let p := mkProfile None {["education" := arr]} in
  exists p', removeItem "education" 0 p = Some p'
             /\ sections p' !! "education" = Some [Obj emptyLeadership].
Proof.
  intros arr p.
  assert (dense arr) as Hd by (repeat constructor; now eexists).
  destruct (remove_item_takes_out_one "education" 0 arr p
              (lookup_singleton_eq _ _) Hd)
    as ((p' & H1 & H2 & _) & _).
  exists p'. split; [exact H1 | exact H2].
Defined.

Lemma spread_single it field (val : Val) :
  spread it {[field := val]} = <[field:=val]> it.
Proof. unfold spread. symmetry. apply insert_union_singleton_l. Qed.

(** X16.  Editing one field of item [i] changes that field of that item and
    nothing else: the list keeps its length, every other item is the same,
    the other fields of the item are the same, and the personal data and
    the other sections are untouched.  An index past the end does not
    fail: the list grows to [i + 1] entries, the new last one holding just
    that field, with holes in between. *)
Theorem update_field_changes_one_field
    key (i : nat) (field : string) (val : Val) arr p :
  sections p !! key = Some arr ->
  dense arr ->
  exists p' arr',
    updateItemField key i field val p = Some p'
    /\ sections p' !! key = Some arr'
    /\ personal p' = personal p
    /\ (forall k, k <> key -> sections p' !! k = sections p !! k)
    /\ (forall it, arr !! i = Some (Obj it) ->
          arr' = <[i:=Obj (<[field:=val]> it)]> arr
          /\ length arr' = length arr
          /\ (forall j, j <> i -> arr' !! j = arr !! j)
          /\ (<[field:=val]> it : Item) !! field = Some val
          /\ (forall f, f <> field ->
                (<[field:=val]> it : Item) !! f = it !! f))
    /\ (length arr <= i ->
          length arr' = S i
          /\ arr' !! i = Some (Obj {[field := val]})
          /\ (forall j, j < length arr -> arr' !! j = arr !! j)
          /\ (forall j, length arr <= j -> j < i -> arr' !! j = Some Hole)).
Proof.
  intros Hs Hd. unfold updateItemField, updateItem. rewrite Hs.
  rewrite (copy_dense arr Hd).
  eexists. eexists. split; [reflexivity|].
  destruct (sections_setSection key
              (assign i (Obj (spread (fields_at i arr) {[field := val]})) arr) p)
    as (H1 & H2 & H3).
  split; [exact H1|]. split; [exact H2|]. split; [exact H3|]. split.
  - intros it Hi. pose proof (lookup_lt_Some _ _ _ Hi) as Hlt.
    unfold assign, fields_at. rewrite Hi.
    destruct (Nat.ltb_spec i (length arr)) as [_|Hge]; [|lia].
    rewrite spread_single.
    split; [reflexivity|]. split; [apply length_insert|].
    split; [intros j Hj; now apply list_lookup_insert_ne|].
    split; [apply lookup_insert_eq|].
    intros f Hf. now apply lookup_insert_ne.
  - intros Hle. unfold assign, fields_at.
    rewrite (lookup_ge_None_2 _ _ Hle).
    destruct (Nat.ltb_spec i (length arr)) as [Hlt|_]; [lia|].
    rewrite spread_single, insert_empty.
    split.
    { rewrite !length_app, length_replicate. simpl. lia. }
    split.
    { rewrite lookup_app_r by lia.
      rewrite lookup_app_r by (rewrite length_replicate; lia).
      rewrite length_replicate.
      now replace (i - length arr - (i - length arr)) with 0 by lia. }
    split.
    { intros j Hj. now rewrite lookup_app_l. }
    intros j Hj1 Hj2. rewrite lookup_app_r by lia.
    rewrite lookup_app_l by (rewrite length_replicate; lia).
    apply lookup_replicate_2. lia.
Qed.

Lemma update_field_changes_one_field_witness :
  let p := mkProfile None {["leadership" := [Obj emptyLeadership]]} in
  exists p',
    updateItemField "leadership" 0 "description" (Str "Led a team") p = Some p'
    /\ sections p' !! "leadership"
       = Some [Obj (<["description":=Str "Led a team"]> emptyLeadership)].
Proof.
  intros p.
  assert (dense [Obj emptyLeadership]) as Hd by (repeat constructor; now eexists).
  destruct (update_field_changes_one_field "leadership" 0 "description"
              (Str "Led a team") [Obj emptyLeadership] p
              (lookup_singleton_eq _ _) Hd)
    as (p' & arr' & H1 & H2 & _ & _ & H3 & _).
  exists p'. split; [exact H1|].
  rewrite H2. f_equal. exact (proj1 (H3 emptyLeadership eq_refl)).
Defined.

(** X17.  Ticking "Current" on a rendered item marks it current and blanks
    its end date; unticking marks it not current and leaves the end date
    as it was (undefined if it had none).  Either way no other field of
    the item and no other item of the section changes. *)
Theorem current_checkbox_blanks_end_date
    key (i : nat) (checked : bool) arr it p :
  sections p !! key = Some arr ->
  dense arr ->
  arr !! i = Some (Obj it) ->
  exists p' it',
    updateItem key i (current_toggled checked it) p = Some p'
    /\ sections p' !! key = Some (<[i:=Obj it']> arr)
    /\ it' !! "is_current" = Some (Bool checked)
    /\ it' !! "end_date"
       = Some (if checked then Str ""
               else default Undef (it !! "end_date"))
    /\ (forall f, f <> "is_current" -> f <> "end_date" -> it' !! f = it !! f).
Proof.
  intros Hs Hd Hi. pose proof (lookup_lt_Some _ _ _ Hi) as Hlt.
  unfold updateItem. rewrite Hs, (copy_dense arr Hd).
  unfold assign, fields_at. rewrite Hi.
  destruct (Nat.ltb_spec i (length arr)) as [_|Hge]; [|lia].
  eexists. eexists. split; [reflexivity|]. simpl.
  split; [now rewrite lookup_insert_eq|].
  unfold spread, current_toggled.
  split.
  { apply lookup_union_Some_l. rewrite lookup_insert_ne by discriminate.
    apply lookup_insert_eq. }
  split.
  { apply lookup_union_Some_l. apply lookup_insert_eq. }
  intros f Hf1 Hf2.
  destruct (it !! f) as [v|] eqn:Hv.
  - apply lookup_union_Some_l. now rewrite !lookup_insert_ne by congruence.
  - apply lookup_union_None. now rewrite !lookup_insert_ne by congruence.
Qed.

Lemma current_checkbox_blanks_end_date_witness :
  let it : Item := <["end_date":=Str "Dec 2026"]> emptyExperience in
  let p := mkProfile None {["experience" := [Obj it]]} in
  exists p' it',
    updateItem "experience" 0 (current_toggled true it) p = Some p'
    /\ it' !! "end_date" = Some (Str "").
Proof.
  intros it p.
  assert (dense [Obj it]) as Hd by (repeat constructor; now eexists).
  destruct (current_checkbox_blanks_end_date "experience" 0 true [Obj it] it p
              (lookup_singleton_eq _ _) Hd eq_refl)
    as (p' & it' & H1 & _ & _ & H2 & _).
  exists p', it'. split; [exact H1 | exact H2].
Defined.

End ProfileLists.

(** ** The login form *)

Section LoginForm.

Import AuthPage.

Lemma truthy_nonempty (x : string) : truthy x = true -> x <> "".
Proof. apply truthy_spec. Qed.

Lemma join_cons (sep : string) (x y : option string) l :
  join sep (x :: y :: l) = (or_empty x ++ sep ++ join sep (y :: l))%string.
Proof. reflexivity. Qed.

(** X18.  The error shown after a failed submit is never blank: it is the
    backend's [detail] when there is a non-empty one; else the validation
    messages joined by ", " when there are some and that gives something;
    else "Something went wrong" (so also when there was no response at
    all).  The joined text is the messages in their order, a missing one
    counting as empty, with ", " between any two.  Every submit ends with
    the spinner off; a successful one leaves the error blank.  Switching
    between login and signup clears the error. *)
Theorem submit_error_never_blank (e : Err) (s : State) :
  error_message e <> ""
  /\ (forall d, detail e = Some d -> d <> "" -> error_message e = d)
  /\ (or_empty (detail e) = "" -> errors e = None ->
      error_message e = "Something went wrong")
  /\ (forall l,
        or_empty (detail e) = "" -> errors e = Some l ->
        (join ", " l <> "" -> error_message e = join ", " l)
        /\ (join ", " l = "" -> error_message e = "Something went wrong"))
  /\ (join ", " [] = ""
      /\ (forall x, join ", " [x] = or_empty x)
      /\ forall x y l,
           join ", " (x :: y :: l)
           = (or_empty x ++ ", " ++ join ", " (y :: l))%string)
  /\ (let s' := submit_done (Some e) (submit_start s) in
      loading s' = false /\ error s' = error_message e /\ error s' <> ""
      /\ form s' = form s /\ isLogin s' = isLogin s)
  /\ (let s' := submit_done None (submit_start s) in
      loading s' = false /\ error s' = "")
  /\ error (toggle s) = ""
  /\ isLogin (toggle (toggle s)) = isLogin s.
Proof.
  assert (error_message e <> "") as Hne.
  { unfold error_message.
    destruct (truthy (or_empty (detail e))) eqn:Ha;
      [now apply truthy_nonempty|].
    match goal with |- context [truthy ?b] => destruct (truthy b) eqn:Hb end;
      [now apply truthy_nonempty | discriminate]. }
  split; [exact Hne|]. split.
  { intros d Hd Hnz. unfold error_message. rewrite Hd, or_empty_Some.
    apply truthy_spec in Hnz. now rewrite Hnz. }
  split.
  { intros Hd He. unfold error_message. now rewrite Hd, He. }
  split.
  { intros l Hd He. unfold error_message. rewrite Hd, He. simpl. split.
    - intros Hj. apply truthy_spec in Hj. now rewrite Hj.
    - intros Hj. now rewrite Hj. }
  split.
  { split; [reflexivity|]. split; [|intros; apply join_cons].
    intros x. reflexivity. }
  split; [simpl; now repeat split|]. split; [now split|].
  split; [reflexivity|]. simpl. now destruct (isLogin s).
Qed.

End LoginForm.

(** ** Sending a chat message *)

Section ChatSend.

Import ChatPage.

Variable trim : string -> string.

Implicit Types (s : State) (text : option string) (reply : option Reply).


End ChatSend.

(** ** Generating a resume *)

Section Resumes.

Import ResumesPage.

Variable trim : string -> string.

(** X20.  [generateResume] posts nothing for a blank description.
    Otherwise it posts the prompt followed by the description, and passes
    the object holding the job description as the second argument of
    [chatAPI.send]: it travels in the [thread_id] field of the body, and the
    [context] field is null. *)
Theorem resume_request_puts_job_in_thread_id (jobDesc : string) :
  (trim jobDesc = "" -> generate_request trim jobDesc = None)
  /\ (trim jobDesc <> "" ->
      exists body,
        generate_request trim jobDesc = Some body
        /\ ChatAPI.message body
           = ("Tailor my resume for this role: " ++ jobDesc)%string
        /\ ChatAPI.thread_id body
           = ChatAPI.JObj [("job_description", jobDesc)]
        /\ ChatAPI.context body = ChatAPI.JNull).
Proof.
  unfold generate_request. split.
  - now intros ->.
  - intros H. apply truthy_spec in H. rewrite H. eexists. now repeat split.
Qed.

(** X21.  Counted in UTF-16 code units, as [length] and [slice] count: the
    title of a generated resume is the job description itself when that
    has at most 60 units; a longer one is cut to its first 60 units
    followed by the three units of "...", so a title never has more than
    63.  The cut takes no account of characters: a description whose 60th
    and 61st units are the two halves of one character is cut between
    them. *)
Theorem resume_title_bounded (jobDesc : Utf16) :
  length (resume_title jobDesc) <= 63
  /\ (length jobDesc <= 60 -> resume_title jobDesc = jobDesc)
  /\ (60 < length jobDesc ->
      resume_title jobDesc = (take 60 jobDesc ++ [46; 46; 46]%N)%list
      /\ length (resume_title jobDesc) = 63
      /\ (take 60 jobDesc) `prefix_of` jobDesc
      /\ forall i, i < 60 -> resume_title jobDesc !! i = jobDesc !! i)
  /\ (forall (x : Utf16) (hi lo : N),
        length x = 59 ->
        resume_title (x ++ [hi; lo] ++ [65%N])%list
        = (x ++ [hi] ++ [46; 46; 46]%N)%list).
Proof.
  unfold resume_title, slice. rewrite drop_0.
  change (60 - 0) with 60.
  change (units "...") with [46; 46; 46]%N.
  change (units "") with (@nil N).
  split; [|split; [|split]].
  - rewrite length_app, length_take.
    destruct (Nat.ltb 60 (length jobDesc)); cbn [length]; lia.
  - intros H. destruct (Nat.ltb_spec 60 (length jobDesc)) as [Hl|_]; [lia|].
    cbv beta iota. rewrite app_nil_r. now apply take_ge.
  - intros H. destruct (Nat.ltb_spec 60 (length jobDesc)) as [_|Hs]; [|lia].
    cbv beta iota. split; [reflexivity|]. split.
    { rewrite length_app, length_take. cbn [length]. lia. }
    split; [apply prefix_take|].
    intros i Hi. rewrite lookup_app_l by (rewrite length_take; lia).
    now apply lookup_take_lt.
  - intros x hi lo Hx. rewrite drop_0.
    assert (Nat.ltb 60 (length (x ++ [hi; lo] ++ [65%N])%list) = true) as ->.
    { apply Nat.ltb_lt. rewrite !length_app, Hx. simpl. lia. }
    assert (take 60 (x ++ [hi; lo] ++ [65%N])%list = (x ++ [hi])%list) as ->.
    { rewrite take_app, Hx, take_ge by lia. reflexivity. }
    now rewrite <- app_assoc.
Qed.

End Resumes.

(** ** Renaming a thread from the sidebar *)

Section SidebarRename.

Import Sidebar.

Variable trim : string -> string.

(** X22.  Confirming a rename always leaves edit mode and keeps the typed
    text.  It calls [onRenameChat] exactly when a thread with a non-zero id
    is being edited, the typed title is not blank once trimmed, and the
    parent passed the callback; it passes that id and the trimmed title.
    So a blank title is never handed on, nothing is handed on for the id
    [0], and without the callback it does what cancelling does.  Applied to
    the dashboard's list, the rename it asks for changes the title of that
    thread to the trimmed text. *)
Theorem confirm_rename_never_blank (onRenameChat : bool) (s : State) :
  let r := confirmRename trim onRenameChat s in
  editingId r.1 = None
  /\ editTitle r.1 = editTitle s
  /\ (forall tid t,
        r.2 = Some (tid, t) <->
        editingId s = Some tid /\ tid <> 0
        /\ t = trim (editTitle s) /\ t <> ""
        /\ onRenameChat = true)
  /\ (editingId s = Some 0 -> r.2 = None)
  /\ (onRenameChat = false -> r = (cancelRename s, None))
  /\ (forall tid t d,
        r.2 = Some (tid, t) ->
        forall th, th ∈ Dashboard.threads (Dashboard.renameThread tid t true d) ->
          Dashboard.id th = tid -> Dashboard.title th = trim (editTitle s)).
Proof.
  intros r. subst r. unfold confirmRename, cancelRename. simpl.
  split; [reflexivity|]. split; [reflexivity|].
  assert (forall tid t,
            (if truthy_id (editingId s) && truthy (trim (editTitle s))
                && onRenameChat
             then match editingId s with
                  | Some tid0 => Some (tid0, trim (editTitle s))
                  | None => None
                  end
             else None) = Some (tid, t) <->
            editingId s = Some tid /\ tid <> 0
            /\ t = trim (editTitle s) /\ t <> ""
            /\ onRenameChat = true) as H.
  { intros tid t. unfold truthy_id.
    destruct (editingId s) as [tid0|]; simpl.
    - destruct (Nat.eqb_spec tid0 0) as [->|Hz]; simpl.
      + split; [discriminate|]. intros ([= <-] & Hne & _). congruence.
      + destruct (truthy (trim (editTitle s))) eqn:Ht; simpl.
        * destruct onRenameChat.
          -- split.
             ++ intros [= <- <-]. repeat split; [exact Hz|].
                now apply truthy_spec.
             ++ intros ([= ->] & _ & -> & _). reflexivity.
          -- split; [discriminate|]. intros (_ & _ & _ & _ & Hf).
             discriminate.
        * split; [discriminate|]. intros (_ & _ & -> & Hne & _).
          apply truthy_spec in Hne. congruence.
    - split; [discriminate|]. now intros [? _]. }
  split; [exact H|]. split.
  { intros ->. reflexivity. }
  split.
  { intros ->. now rewrite andb_false_r. }
  intros tid t d Hr th Hin Hid. apply H in Hr as (_ & _ & -> & _).
  unfold Dashboard.renameThread, Dashboard.setThreads in Hin. simpl in Hin.
  apply list_elem_of_fmap in Hin as (th0 & -> & _).
  destruct (decide (Dashboard.id th0 = tid)) as [_|Hne]; [reflexivity|].
  contradiction.
Qed.

End SidebarRename.

(** ** Instances *)



Lemma resume_request_puts_job_in_thread_id_witness :
  exists body,
    ResumesPage.generate_request (fun x => x) "ML Engineer" = Some body
    /\ ChatAPI.context body = ChatAPI.JNull.
Proof.
  destruct (resume_request_puts_job_in_thread_id (fun x => x) "ML Engineer")
    as [_ H].
  destruct (H ltac:(discriminate)) as (body & Hb & _ & _ & Hc).
  exists body. split; [exact Hb | exact Hc].
Defined.

Lemma confirm_rename_never_blank_witness :
  (Sidebar.confirmRename (fun x => x) true (Sidebar.startRename 4 "Offer")).2
  = Some (4, "Offer")
  /\ (Sidebar.confirmRename (fun x => x) true (Sidebar.mkState (Some 4) "")).2
     = None
  /\ (Sidebar.confirmRename (fun x => x) true (Sidebar.startRename 0 "Offer")).2
     = None
  /\ (Sidebar.confirmRename (fun x => x) false
        (Sidebar.startRename 4 "Offer")).2
     = None.
Proof.
  destruct (confirm_rename_never_blank (fun x => x) true
              (Sidebar.startRename 4 "Offer")) as (_ & _ & H & _).
  destruct (confirm_rename_never_blank (fun x => x) true
              (Sidebar.startRename 0 "Offer")) as (_ & _ & _ & H0 & _).
  split; [|split; [|split]].
  - apply H. repeat split; discriminate.
  - reflexivity.
  - apply H0. reflexivity.
  - reflexivity.
Defined.
